(** * Verification of the exchange-monitor account fetch engine

    Shallow embedding of [src/services/accountManagerService.ts] (the
    [AccountManager] singleton and its module-level maps),
    [src/services/dataFetcherService.ts] (the in-memory cache and the fetch
    pass), the [POST /accounts] route of the routes file and the static
    [config] module.

    The module-level objects of the two services ([exchangeClients],
    [lastFetchTimes], [errorCounts], [backoffTimes], [cachedData]) are the
    fields of one explicit state record.  JavaScript numbers holding epoch
    milliseconds and counters are modelled as [Z].  [Date.now()] is an
    explicit argument.  The exchange connector is an oracle: each call of
    [client.getExchangeData()] resolves with a snapshot or rejects. *)

From Stdlib Require Import ZArith List.
From stdpp Require Import base gmap strings list option.
Import ListNotations.
Open Scope Z_scope.

(* ------------------------------------------------------------------ *)
(** ** Data model ([models/position.model], [config]) *)

Inductive PositionSide := LONG | SHORT.
Inductive MarginMode := CROSS | ISOLATED.

Record Position := mkPosition {
  symbol : string;
  side : PositionSide;
  size : Z;
  notionalValue : Z;
  entryPrice : Z;
  markPrice : Z;
  liquidationPrice : Z;
  liquidationPriceChangePercent : Z;
  currentFundingRate : Z;
  nextFundingRate : Z;
  leverage : Z;
  unrealizedPnl : Z;
  realizedPnl : Z;
  marginMode : MarginMode
}.

Record AccountSummary := mkAccountSummary {
  baseCurrency : string;
  baseBalance : Z;
  totalNotionalValue : Z;
  accountLeverage : Z;
  openPositionsCount : Z;
  openOrdersCount : Z;
  accountMarginRatio : Z;
  liquidationBuffer : Z
}.

Record ExchangeData := mkExchangeData {
  ed_exchange : string;
  ed_accountName : string;
  positions : list Position;
  accountSummary : AccountSummary
}.

(** [AccountConfig]: [exchange] and [accountType] are kept as strings,
    since the [POST /accounts] route passes the untyped request body
    through and [initializeAccount] has a [default] branch. *)
Record AccountConfig := mkAccountConfig {
  name : string;
  exchange : string;
  accountType : string;
  apiKey : string;
  apiSecret : string;
  baseUrl : option string
}.

Inductive BinanceAccountType := FUTURES | PORTFOLIO_MARGIN.

(** The connector objects built by [initializeAccount]. *)
Inductive ExchangeClient :=
| BinanceClient (t : BinanceAccountType) (key secret : string) (url : option string)
| BybitClient (key secret : string) (url : option string).

(** [cachedData : CombinedData] of [dataFetcherService.ts]. *)
Record CombinedData := mkCombinedData {
  accounts : gmap string ExchangeData;
  currentAccount : string;
  availableAccounts : list string;
  accountConfigs : gmap string AccountConfig
}.

(** The state of both services.  [connectorCalls] is a ghost trace: the
    account names whose [client.getExchangeData()] was invoked, most
    recent first. *)
Record St := mkSt {
  config_accounts : list AccountConfig;
  exchangeClients : gmap string ExchangeClient;
  lastFetchTimes : gmap string Z;
  errorCounts : gmap string Z;
  backoffTimes : gmap string Z;
  cachedData : CombinedData;
  connectorCalls : list string
}.

Definition emptyCache : CombinedData := mkCombinedData ∅ "" [] ∅.

Definition initialState (cfg : list AccountConfig) : St :=
  mkSt cfg ∅ ∅ ∅ ∅ emptyCache [].

(** Outcome of one awaited connector promise. *)
Inductive Outcome :=
| Resolved (d : ExchangeData)
| Rejected.

(** What the environment supplies to one [fetchAccountData] call: the
    value of [Date.now()] at the backoff check (line 123), the value of
    [Date.now()] after the connector settled (lines 133 and 149) and the
    connector's outcome. *)
Record Obs := mkObs {
  t_check : Z;
  t_done : Z;
  outcome : Outcome
}.

(* ------------------------------------------------------------------ *)
(** ** [accountManagerService.ts] *)

Definition MAX_CONSECUTIVE_ERRORS : Z := 5.
Definition INITIAL_BACKOFF : Z := 30000.

(** [x || 0] on a map read that may be [undefined]. *)
Definition or0 (o : option Z) : Z := default 0 o.

(** [m[k] > now]: [undefined > now] is [false]. *)
Definition gt_opt (o : option Z) (now : Z) : bool :=
  match o with Some b => bool_decide (now < b) | None => false end.

(** [getAccountByName]: [config.accounts.find(a => a.name === name)]. *)
Definition getAccountByName (cfg : list AccountConfig) (n : string)
  : option AccountConfig :=
  find (fun c => bool_decide (name c = n)) cfg.

Definition getAccountConfig (st : St) (n : string) : option AccountConfig :=
  getAccountByName (config_accounts st) n.

Definition getAvailableAccounts (st : St) : list string :=
  map name (config_accounts st).

(** [fetchAccountData(accountName)], lines 115-155. *)
Definition fetchAccountData (ob : Obs) (a : string) (st : St)
  : St * option ExchangeData :=
  match exchangeClients st !! a with
  | None => (st, None)
  | Some _ =>
    if gt_opt (backoffTimes st !! a) (t_check ob) then (st, None)
    else
      let calls := a :: connectorCalls st in
      match outcome ob with
      | Resolved d =>
        (mkSt (config_accounts st) (exchangeClients st)
              (<[a := t_done ob]> (lastFetchTimes st))
              (<[a := 0]> (errorCounts st))
              (<[a := 0]> (backoffTimes st))
              (cachedData st) calls, Some d)
      | Rejected =>
        let cnt := or0 (errorCounts st !! a) + 1 in
        let bo :=
          if bool_decide (MAX_CONSECUTIVE_ERRORS <= cnt)
          then <[a := t_done ob + INITIAL_BACKOFF *
                      2 ^ Z.min (cnt - MAX_CONSECUTIVE_ERRORS) 5]>
                 (backoffTimes st)
          else backoffTimes st in
        (mkSt (config_accounts st) (exchangeClients st) (lastFetchTimes st)
              (<[a := cnt]> (errorCounts st)) bo (cachedData st) calls, None)
      end
  end.

(* ------------------------------------------------------------------ *)
(** ** [dataFetcherService.ts]: the fetch pass *)

(** One iteration of the loop of [fetchAllAccountsData], lines 71-88. *)
Definition fetchAccountStep (ob : Obs) (a : string) (st : St) : St :=
  let '(st1, r) := fetchAccountData ob a st in
  match r with
  | None => st1
  | Some d =>
    let c := cachedData st1 in
    let cfgs :=
      match getAccountConfig st1 a with
      | Some cf => <[a := cf]> (accountConfigs c)
      | None => accountConfigs c
      end in
    mkSt (config_accounts st1) (exchangeClients st1) (lastFetchTimes st1)
         (errorCounts st1) (backoffTimes st1)
         (mkCombinedData (<[a := d]> (accounts c)) (currentAccount c)
                         (availableAccounts c) cfgs)
         (connectorCalls st1)
  end.

(** [fetchAllAccountsData()]: sequential loop over the configured names;
    [obs a] is what the environment supplies for account [a]. *)
Definition fetchAllAccountsData (obs : string -> Obs) (st : St) : St :=
  fold_left (fun s a => fetchAccountStep (obs a) a s) (getAvailableAccounts st) st.

(* ------------------------------------------------------------------ *)
(** ** Registration, selection and health *)

(** A call that either returns or throws an [Error] with a message. *)
Inductive Throws (A : Type) :=
| Ret (x : A)
| Throw (msg : string).
Arguments Ret {A} x.
Arguments Throw {A} msg.

(** The [switch (exchange)] of [initializeAccount], lines 60-79. *)
Definition makeClient (c : AccountConfig) : Throws ExchangeClient :=
  if String.eqb (exchange c) "binance" then
    if String.eqb (accountType c) "futures" then
      Ret (BinanceClient FUTURES (apiKey c) (apiSecret c) (baseUrl c))
    else if String.eqb (accountType c) "portfolioMargin" then
      Ret (BinanceClient PORTFOLIO_MARGIN (apiKey c) (apiSecret c) (baseUrl c))
    else Throw ("Unsupported Binance account type: " ++ accountType c)
  else if String.eqb (exchange c) "bybit" then
    if String.eqb (accountType c) "unified" then
      Ret (BybitClient (apiKey c) (apiSecret c) (baseUrl c))
    else Throw ("Unsupported Bybit account type: " ++ accountType c)
  else Throw ("Unsupported exchange: " ++ exchange c).

(** [initializeAccount(accountConfig)], lines 55-93; [init_ok] is whether
    [client.initialize()] resolves ([init_err] is its rejection message). *)
Definition initializeAccount (c : AccountConfig) (init_ok : bool)
    (init_err : string) (st : St) : Throws St :=
  match makeClient c with
  | Throw m => Throw m
  | Ret cl =>
    if init_ok then
      Ret (mkSt (config_accounts st)
                (<[name c := cl]> (exchangeClients st))
                (<[name c := 0]> (lastFetchTimes st))
                (<[name c := 0]> (errorCounts st))
                (<[name c := 0]> (backoffTimes st))
                (cachedData st) (connectorCalls st))
    else Throw init_err
  end.

(** [initializeAllAccounts()], lines 41-52: each failure is caught. *)
Definition initializeAllAccounts (inits : string -> bool) (st : St) : St :=
  fold_left (fun s c =>
      match initializeAccount c (inits (name c)) "initialize failed" s with
      | Ret s' => s'
      | Throw _ => s
      end) (config_accounts st) st.

(** [getAllAccountConfigs()], lines 106-112. *)
Definition getAllAccountConfigs (st : St) : gmap string AccountConfig :=
  fold_left (fun m c => <[name c := c]> m) (config_accounts st) ∅.

(** [startDataFetcher()], lines 92-106, up to the first fetch pass. *)
Definition startDataFetcher_setup (inits : string -> bool) (st : St) : St :=
  let st1 := initializeAllAccounts inits st in
  let avail := getAvailableAccounts st1 in
  let c := cachedData st1 in
  let cur := match avail with a :: _ => a | [] => currentAccount c end in
  mkSt (config_accounts st1) (exchangeClients st1) (lastFetchTimes st1)
       (errorCounts st1) (backoffTimes st1)
       (mkCombinedData (accounts c) cur avail (getAllAccountConfigs st1))
       (connectorCalls st1).

(** [startDataFetcher()] with its initial fetch pass. *)
Definition startDataFetcher (inits : string -> bool) (obs : string -> Obs)
    (st : St) : St :=
  fetchAllAccountsData obs (startDataFetcher_setup inits st).

(** [setCurrentAccount(accountName)], lines 137-144. *)
Definition setCurrentAccount (n : string) (st : St) : Throws St :=
  let c := cachedData st in
  if bool_decide (n ∈ availableAccounts c) then
    Ret (mkSt (config_accounts st) (exchangeClients st) (lastFetchTimes st)
              (errorCounts st) (backoffTimes st)
              (mkCombinedData (accounts c) n (availableAccounts c)
                              (accountConfigs c))
              (connectorCalls st))
  else Throw ("Invalid account: " ++ n).

(** The body of [POST /accounts]: the fields of a JSON request body whose
    fields are strings or absent ([express.json()] also lets through
    other JSON values, which this record does not cover). *)
Record PostBody := mkPostBody {
  b_name : option string;
  b_exchange : option string;
  b_accountType : option string;
  b_apiKey : option string;
  b_apiSecret : option string;
  b_baseUrl : option string
}.

Inductive Response :=
| Status400 (msg : string)
| Status500 (msg : string)
| AddedOk (accountName : string).

(** [!x] on a string field: missing or empty. *)
Definition falsy (o : option string) : bool :=
  match o with None => true | Some s => String.eqb s "" end.

(** The [POST /accounts] handler; the promise of [initializeAccount] is
    run to completion ([init_ok]: whether [client.initialize()] resolves). *)
Definition postAccounts (body : PostBody) (init_ok : bool) (st : St)
  : St * Response :=
  if falsy (b_name body) || falsy (b_exchange body) || falsy (b_accountType body)
     || falsy (b_apiKey body) || falsy (b_apiSecret body)
  then (st, Status400 "Missing required fields")
  else
    let n := default "" (b_name body) in
    match getAccountConfig st n with
    | Some _ => (st, Status400 "Account with this name already exists")
    | None =>
      let c := mkAccountConfig n (default "" (b_exchange body))
                 (default "" (b_accountType body)) (default "" (b_apiKey body))
                 (default "" (b_apiSecret body)) (b_baseUrl body) in
      match initializeAccount c init_ok "initialize failed" st with
      | Ret st' => (st', AddedOk n)
      | Throw m => (st, Status500 ("Failed to initialize account: " ++ m))
      end
    end.

(** One entry of [getHealthStatus()]; ISO date strings are kept as the
    epoch milliseconds they print. *)
Record Health := mkHealth {
  healthy : bool;
  lastFetch : option Z;
  timeSinceLastFetch : option Z;
  inBackoff : bool;
  backoffEnds : option Z;
  errorCount : Z;
  hconfig : option AccountConfig
}.

(** The loop body of [getHealthStatus()], lines 163-176;
    [Math.round(x / 1000)] on an integer [x] is [(x + 500) / 1000]. *)
Definition healthOf (now : Z) (st : St) (a : string) : Health :=
  let lf := or0 (lastFetchTimes st !! a) in
  let since := now - lf in
  let ib := gt_opt (backoffTimes st !! a) now in
  mkHealth (bool_decide (0 < lf) && bool_decide (since < 60000))
           (if bool_decide (lf = 0) then None else Some lf)
           (if bool_decide (lf = 0) then None else Some ((since + 500) / 1000))
           ib
           (if ib then backoffTimes st !! a else None)
           (or0 (errorCounts st !! a))
           (getAccountConfig st a).

(** [getHealthStatus()], lines 158-180: one entry per key of
    [exchangeClients]. *)
Definition getHealthStatus (now : Z) (st : St) : gmap string Health :=
  map_imap (fun a _ => Some (healthOf now st a)) (exchangeClients st).

(* ------------------------------------------------------------------ *)
(** ** Concrete inputs *)

Definition sumA : AccountSummary := mkAccountSummary "USDT" 1000 0 0 0 0 0 100.

Definition snapA : ExchangeData := mkExchangeData "binance" "A" [] sumA.
Definition snapB : ExchangeData := mkExchangeData "binance" "B" [] sumA.

Definition cfgA : AccountConfig :=
  mkAccountConfig "A" "binance" "futures" "kA" "sA" None.
Definition cfgB : AccountConfig :=
  mkAccountConfig "B" "binance" "portfolioMargin" "kB" "sB" None.

(** Both configured accounts initialise successfully. *)
Definition allInit : string -> bool := fun _ => true.

Definition stAB : St := startDataFetcher_setup allInit (initialState [cfgA; cfgB]).

(** The same two accounts, configured in the other order. *)
Definition stBA : St := startDataFetcher_setup allInit (initialState [cfgB; cfgA]).

Definition failAt (t : Z) : Obs := mkObs t t Rejected.
Definition okAt (t : Z) (d : ExchangeData) : Obs := mkObs t t (Resolved d).

(** Runs [fetchAccountStep] on one account for each observation. *)
Fixpoint runSteps (a : string) (obs : list Obs) (st : St) : St :=
  match obs with
  | [] => st
  | ob :: rest => runSteps a rest (fetchAccountStep ob a st)
  end.

(** Runs [fetchAccountStep] on a sequence of (account, observation)
    pairs, e.g. the iterations of several fetch passes. *)
Fixpoint runMany (steps : list (string * Obs)) (st : St) : St :=
  match steps with
  | [] => st
  | (b, ob) :: rest => runMany rest (fetchAccountStep ob b st)
  end.

(** Repeated scheduled passes. *)
Fixpoint runPasses (passes : list (string -> Obs)) (st : St) : St :=
  match passes with
  | [] => st
  | obs :: rest => runPasses rest (fetchAllAccountsData obs st)
  end.

(** Everything the service stores about one account name. *)
Definition acct_view (st : St) (a : string) :=
  (exchangeClients st !! a, lastFetchTimes st !! a, errorCounts st !! a,
   backoffTimes st !! a, accounts (cachedData st) !! a,
   accountConfigs (cachedData st) !! a).

(** States reachable by the operations of the two services. *)
Inductive reachable : St -> Prop :=
| r_init cfg : reachable (initialState cfg)
| r_setup inits st : reachable st -> reachable (startDataFetcher_setup inits st)
| r_step ob a st : reachable st -> reachable (fetchAccountStep ob a st)
| r_post body ok st : reachable st -> reachable (postAccounts body ok st).1
| r_select n st st' :
    reachable st -> setCurrentAccount n st = Ret st' -> reachable st'.

(** The tracking invariant: an initialised account has an error count
    and a backoff time, and the backoff time is 0 below the threshold. *)
Definition fetch_inv (st : St) : Prop :=
  forall a cl, exchangeClients st !! a = Some cl ->
    exists c b, errorCounts st !! a = Some c /\ backoffTimes st !! a = Some b /\
                (c < MAX_CONSECUTIVE_ERRORS -> b = 0).

(* ------------------------------------------------------------------ *)
(** ** Concrete scenarios *)

(** A state with four failures and a backoff set for account "A". *)
Definition stAfail : St := runSteps "A" (map failAt [1; 2; 3; 4; 5]) stAB.

(** The state after one successful fetch of account "A". *)
Definition stAok : St := fetchAccountStep (okAt 10 snapA) "A" stAB.

(** An initial state whose configured account "A" failed to initialise. *)
Definition stAdown : St :=
  startDataFetcher_setup (fun n => bool_decide (n <> "A")) (initialState [cfgA; cfgB]).

(** Account "A" succeeds and account "B" fails in the same pass. *)
Definition obsAB (n : string) : Obs :=
  if bool_decide (n = "A") then okAt 10 snapA else failAt 11.

(** [A] succeeds at 1000, then fails five times in a row, 1001..1005. *)
Definition stC4 : St :=
  runSteps "A" [okAt 1000 snapA; failAt 1001; failAt 1002; failAt 1003;
                failAt 1004; failAt 1005] stAB.

Definition bodyNew (key : string) : PostBody :=
  mkPostBody (Some "NEW") (Some "binance") (Some "futures") (Some key) (Some "sN") None.

(** "NEW" registered through [POST /accounts] after startup. *)
Definition stNew1 : St := (postAccounts (bodyNew "k1") true stAB).1.

(* ------------------------------------------------------------------ *)
(** ** [getCachedData()]: the JSON round trip on a JavaScript heap

    [cachedData] is a live object graph shared by the service; a caller
    could only corrupt it through references.  This module models the
    heap: objects and arrays live at locations, values hold references.
    [JSON.stringify] reads the graph into a JSON tree ([ser]; the fuel
    bounds the nesting depth, a cyclic graph throws), [JSON.parse]
    allocates a fresh graph for the tree ([alloc]); then the copy's root
    gets its [lastUpdate] property.  Dates are kept as epoch milliseconds. *)
Module JsHeap.
Local Open Scope N_scope.

Definition loc := N.

Inductive jval :=
| JNull
| JBool (b : bool)
| JNum (z : Z)
| JStr (s : string)
| JRef (l : loc).

Inductive jnode :=
| JObj (props : list (string * jval))
| JArr (elems : list jval).

Record heap := mkHeap { mem : gmap loc jnode; next : loc }.

(** Every allocated location lies below the allocation pointer. *)
Definition wf (h : heap) : Prop :=
  forall l x, mem h !! l = Some x -> (l < next h).

(** JSON text, as a tree. *)
Inductive json :=
| JSNull
| JSBool (b : bool)
| JSNum (z : Z)
| JSStr (s : string)
| JSObj (ps : jprops)
| JSArr (ts : jlist)
with jprops :=
| PNil
| PCons (k : string) (t : json) (rest : jprops)
with jlist :=
| LNil
| LCons (t : json) (rest : jlist).

Scheme json_mut := Induction for json Sort Prop
  with jprops_mut := Induction for jprops Sort Prop
  with jlist_mut := Induction for jlist Sort Prop.
Combined Scheme json_all from json_mut, jprops_mut, jlist_mut.

Fixpoint ser_props (f : jval -> option json) (ps : list (string * jval))
  : option jprops :=
  match ps with
  | [] => Some PNil
  | (k, x) :: rest =>
    match f x, ser_props f rest with
    | Some t, Some ts => Some (PCons k t ts)
    | _, _ => None
    end
  end.

Fixpoint ser_list (f : jval -> option json) (xs : list jval) : option jlist :=
  match xs with
  | [] => Some LNil
  | x :: rest =>
    match f x, ser_list f rest with
    | Some t, Some ts => Some (LCons t ts)
    | _, _ => None
    end
  end.

(** [JSON.stringify] of the value [v]. *)
Fixpoint ser (n : nat) (m : gmap loc jnode) (v : jval) : option json :=
  match v with
  | JNull => Some JSNull
  | JBool b => Some (JSBool b)
  | JNum z => Some (JSNum z)
  | JStr s => Some (JSStr s)
  | JRef l =>
    match n with
    | O => None
    | S n' =>
      match m !! l with
      | Some (JObj ps) =>
        match ser_props (ser n' m) ps with Some tp => Some (JSObj tp) | None => None end
      | Some (JArr xs) =>
        match ser_list (ser n' m) xs with Some tl => Some (JSArr tl) | None => None end
      | None => None
      end
    end
  end.

Definition alloc_node (nd : jnode) (h : heap) : heap * jval :=
  (mkHeap (<[next h := nd]> (mem h)) (N.succ (next h)), JRef (next h)).

(** [JSON.parse]: allocates the objects of the tree, children first. *)
Fixpoint alloc (t : json) (h : heap) : heap * jval :=
  match t with
  | JSNull => (h, JNull)
  | JSBool b => (h, JBool b)
  | JSNum z => (h, JNum z)
  | JSStr s => (h, JStr s)
  | JSObj ps => let '(h1, vs) := alloc_props ps h in alloc_node (JObj vs) h1
  | JSArr ts => let '(h1, vs) := alloc_list ts h in alloc_node (JArr vs) h1
  end
with alloc_props (ps : jprops) (h : heap) : heap * list (string * jval) :=
  match ps with
  | PNil => (h, [])
  | PCons k t rest =>
    let '(h1, v) := alloc t h in
    let '(h2, vs) := alloc_props rest h1 in
    (h2, (k, v) :: vs)
  end
with alloc_list (ts : jlist) (h : heap) : heap * list jval :=
  match ts with
  | LNil => (h, [])
  | LCons t rest =>
    let '(h1, v) := alloc t h in
    let '(h2, vs) := alloc_list rest h1 in
    (h2, v :: vs)
  end.

(** Property assignment [o[k] = v]: an existing key keeps its place, a new
    key is appended. *)
Fixpoint set_prop (k : string) (v : jval) (ps : list (string * jval))
  : list (string * jval) :=
  match ps with
  | [] => [(k, v)]
  | (k', v') :: rest =>
    if String.eqb k k' then (k, v) :: rest else (k', v') :: set_prop k v rest
  end.

(** [getCachedData()], lines 127-135 of [dataFetcherService.ts]:
    [JSON.parse(JSON.stringify(cachedData))], then
    [data.lastUpdate = new Date().toISOString()]; assigning a property of
    a primitive throws in a module (strict mode). *)
Definition getCachedData (fuel : nat) (now : Z) (h : heap) (cachedData : jval)
  : option (heap * jval) :=
  match ser fuel (mem h) cachedData with
  | None => None
  | Some t =>
    let '(h1, data) := alloc t h in
    match data with
    | JRef l =>
      match mem h1 !! l with
      | Some (JObj ps) =>
        Some (mkHeap (<[l := JObj (set_prop "lastUpdate" (JNum now) ps)]> (mem h1))
                     (next h1), data)
      | Some (JArr _) => Some (h1, data)
      | None => None
      end
    | _ => None
    end
  end.

(** The JSON text of the snapshot a caller receives. *)
Definition snapshotJson (fuel : nat) (now : Z) (h : heap) (cachedData : jval)
  : option json :=
  match getCachedData fuel now h cachedData with
  | Some (h', r) => ser fuel (mem h') r
  | None => None
  end.

(** Nesting depth of a JSON tree. *)
Fixpoint depth (t : json) : nat :=
  match t with
  | JSObj ps => S (depth_props ps)
  | JSArr ts => S (depth_list ts)
  | _ => O
  end
with depth_props (ps : jprops) : nat :=
  match ps with
  | PNil => O
  | PCons _ t rest => Nat.max (depth t) (depth_props rest)
  end
with depth_list (ts : jlist) : nat :=
  match ts with
  | LNil => O
  | LCons t rest => Nat.max (depth t) (depth_list rest)
  end.

(** [set_prop] on JSON text. *)
Fixpoint jset_prop (k : string) (t : json) (ps : jprops) : jprops :=
  match ps with
  | PNil => PCons k t PNil
  | PCons k' t' rest =>
    if String.eqb k k' then PCons k t rest else PCons k' t' (jset_prop k t rest)
  end.

(** The JSON text of a snapshot taken at [now] of a cache whose JSON text
    is [o]. *)
Definition snap_of (now : Z) (o : option json) : option json :=
  match o with
  | Some (JSObj ps) => Some (JSObj (jset_prop "lastUpdate" (JSNum now) ps))
  | Some (JSArr ts) => Some (JSArr ts)
  | _ => None
  end.

(** [h1] extends [h]: the pointer only grows, and nothing below the old
    pointer or at or above the new one changed. *)
Definition frame (h h1 : heap) : Prop :=
  next h <= next h1 /\
  (forall l, l < next h -> mem h1 !! l = mem h !! l) /\
  (forall l, next h1 <= l -> mem h1 !! l = mem h !! l).

(** Two memories agree on the locations [lo <= l < hi]. *)
Definition agree (lo hi : loc) (m1 m2 : gmap loc jnode) : Prop :=
  forall l, (lo <= l < hi) -> m1 !! l = m2 !! l.

(** The node stored at a location holds a reference to [l1]: as the value
    of one of its properties or as one of its elements. *)
Definition node_ref (nd : jnode) (l1 : loc) : Prop :=
  match nd with
  | JObj ps => exists k, (k, JRef l1) ∈ ps
  | JArr xs => JRef l1 ∈ xs
  end.

(** [l2] is reachable from [l] by following references in [m]. *)
Inductive reach (m : gmap loc jnode) : loc -> loc -> Prop :=
| reach_refl l : reach m l l
| reach_step l nd l1 l2 :
    m !! l = Some nd -> node_ref nd l1 -> reach m l1 l2 -> reach m l l2.

(** The nodes at the locations [lo <= l < hi] only refer to such
    locations. *)
Definition closed (lo hi : loc) (m : gmap loc jnode) : Prop :=
  forall l nd l1, lo <= l < hi -> m !! l = Some nd -> node_ref nd l1 ->
    lo <= l1 < hi.

(** Property read [o.k] ([undefined], here [JNull], when absent). *)
Fixpoint lookup_prop (k : string) (ps : list (string * jval)) : jval :=
  match ps with
  | [] => JNull
  | (k', v) :: rest => if String.eqb k k' then v else lookup_prop k rest
  end.

Definition get_prop (m : gmap loc jnode) (v : jval) (k : string) : jval :=
  match v with
  | JRef l => match m !! l with Some (JObj ps) => lookup_prop k ps | _ => JNull end
  | _ => JNull
  end.

(** A property path [o.k1.k2...]. *)
Fixpoint get_path (m : gmap loc jnode) (v : jval) (ks : list string) : jval :=
  match ks with
  | [] => v
  | k :: rest => get_path m (get_prop m v k) rest
  end.

(** A concrete cache: one account, the current account and the account
    list, parsed into an empty heap. *)
Definition cacheJson : json :=
  JSObj (PCons "accounts"
           (JSObj (PCons "A" (JSObj (PCons "baseBalance" (JSNum 1000) PNil)) PNil))
         (PCons "currentAccount" (JSStr "A")
         (PCons "availableAccounts" (JSArr (LCons (JSStr "A") LNil)) PNil))).

Definition emptyHeap : heap := mkHeap empty 0.

Definition h0 : heap := (alloc cacheJson emptyHeap).1.
Definition root0 : jval := (alloc cacheJson emptyHeap).2.

Definition copy0 : option (heap * jval) := getCachedData 3 7 h0 root0.
Definition copyHeap : heap := match copy0 with Some (h', _) => h' | None => h0 end.
Definition copyRoot : jval := match copy0 with Some (_, r) => r | None => JNull end.
Definition copyLoc : loc := match copyRoot with JRef l => l | _ => 0 end.

(** The nested object [snap.accounts.A] of the copy. *)
Definition copyALoc : loc :=
  match get_path (mem copyHeap) copyRoot ["accounts"; "A"] with JRef l => l | _ => 0 end.

(** A consumer overwrites a nested part of the copy:
    [snap.accounts.A.baseBalance = 0]. *)
Definition hmut : heap :=
  mkHeap (<[copyALoc := JObj [("baseBalance", JNum 0)]]> (mem copyHeap)) (next copyHeap).

End JsHeap.

(* ------------------------------------------------------------------ *)
(** ** The static configuration ([config.ts]) *)

(** [config.accounts] as shipped: four Binance accounts (the two Bybit
    entries are commented out).  Keys, secrets and base URLs are read from
    the environment with built-in defaults; [cred] gives them per name. *)
Definition shippedConfig (cred : string -> string * string * string)
  : list AccountConfig :=
  map (fun '(n, e, t) => mkAccountConfig n e t (cred n).1.1 (cred n).1.2 (Some (cred n).2))
    [("SF1", "binance", "futures"); ("SF2", "binance", "futures");
     ("PM1", "binance", "portfolioMargin"); ("PM2", "binance", "portfolioMargin")].

(** [getAccountsByExchange(exchange)]:
    [config.accounts.filter(account => account.exchange === exchange)]. *)
Definition getAccountsByExchange (cfg : list AccountConfig) (e : string)
  : list AccountConfig :=
  filter (fun c => exchange c = e) cfg.

(** The (exchange, account type) pairs for which the [switch] of
    [initializeAccount] builds a client. *)
Definition supportedKinds : list (string * string) :=
  [("binance", "futures"); ("binance", "portfolioMargin"); ("bybit", "unified")].

(** The credentials a client was constructed with. *)
Definition clientCreds (cl : ExchangeClient) : string * string * option string :=
  match cl with
  | BinanceClient _ k sec u => (k, sec, u)
  | BybitClient k sec u => (k, sec, u)
  end.

(* ------------------------------------------------------------------ *)
(** ** Read routes of [exchange.routes.ts]

    The handlers read [getCachedData()], whose JSON copy has the cache's
    content (see [JsHeapFacts.snapshot_content]), so they are modelled on
    [cachedData] itself.  Route parameters and body fields are strings or
    missing. *)

(** What a handler sends: [res.json(x)], [res.json(undefined)] (status
    200, no body), or an error status with [{ error: msg }]. *)
Inductive Reply (A : Type) :=
| Json (x : A)
| NoBody
| Error (code : Z) (msg : string).
Arguments Json {A} x.
Arguments NoBody {A}.
Arguments Error {A} code msg.

(** The properties every plain object inherits from [Object.prototype]. *)
Definition objectProtoProps : list string :=
  ["constructor"; "__defineGetter__"; "__defineSetter__"; "hasOwnProperty";
   "__lookupGetter__"; "__lookupSetter__"; "isPrototypeOf";
   "propertyIsEnumerable"; "toString"; "valueOf"; "__proto__";
   "toLocaleString"].

(** Reading [obj[k]] on a plain object: an own property, an inherited one
    (a function or [Object.prototype] itself, both truthy, with no
    [positions] or [accountSummary] field), or [undefined]. *)
Inductive PropRead (A : Type) :=
| Own (x : A)
| Inherited
| Absent.
Arguments Own {A} x.
Arguments Inherited {A}.
Arguments Absent {A}.

Definition objGet {A} (m : gmap string A) (k : string) : PropRead A :=
  match m !! k with
  | Some x => Own x
  | None => if bool_decide (k ∈ objectProtoProps) then Inherited else Absent
  end.

(** [GET /positions/:accountName]. *)
Definition positionsRoute (accountName : string) (st : St) : Reply (list Position) :=
  match objGet (accounts (cachedData st)) accountName with
  | Own d => Json (positions d)
  | Inherited => NoBody
  | Absent => Error 404 "Account not found"
  end.

(** [GET /account-summary/:accountName]. *)
Definition accountSummaryRoute (accountName : string) (st : St) : Reply AccountSummary :=
  match objGet (accounts (cachedData st)) accountName with
  | Own d => Json (accountSummary d)
  | Inherited => NoBody
  | Absent => Error 404 "Account not found"
  end.

(** The object composed by [POST /account-metrics]. *)
Record Metrics := mkMetrics {
  m_baseCurrency : string;
  m_baseBalance : Z;
  m_totalNotionalValue : Z;
  m_accountLeverage : Z;
  m_openPositions : Z;
  m_openOrders : Z;
  m_marginRatio : Z;
  m_liquidationBuffer : Z
}.

Definition metricsOf (s : AccountSummary) : Metrics :=
  mkMetrics (baseCurrency s) (baseBalance s) (totalNotionalValue s)
            (accountLeverage s) (openPositionsCount s) (openOrdersCount s)
            (accountMarginRatio s) (liquidationBuffer s).

(** An element of [targets]: [null]/[undefined] (destructuring it throws),
    or any other value, with its [account] field. *)
Inductive Target :=
| TNullish
| TObj (account : option string).

(** The [targets] field of the request body. *)
Inductive TargetsField :=
| TMissing
| TNotArray
| TArray (ts : list Target).

(** [POST /account-metrics]; an exception thrown in the handler reaches
    the error middleware of [index.ts], which answers 500. *)
Definition accountMetricsRoute (targets : TargetsField) (st : St) : Reply Metrics :=
  match targets with
  | TMissing | TNotArray | TArray [] => Error 400 "Invalid request body"
  | TArray (t :: _) =>
    match t with
    | TNullish => Error 500 "Internal Server Error"
    | TObj acc =>
      if falsy acc then Error 400 "Account name is required"
      else
        match objGet (accounts (cachedData st)) (default "" acc) with
        | Absent => Error 404 "Account not found"
        | Inherited => Error 500 "Internal Server Error"
        | Own d => Json (metricsOf (accountSummary d))
        end
    end
  end.

(** [POST /set-current]. *)
Definition setCurrentRoute (accountName : option string) (st : St) : St * Reply string :=
  if falsy accountName then (st, Error 400 "Account name is required")
  else
    let n := default "" accountName in
    match setCurrentAccount n st with
    | Ret st' => (st', Json n)
    | Throw m => (st, Error 400 m)
    end.

(** [GET /accounts/:exchange]. *)
Definition accountsByExchangeRoute (cfg : list AccountConfig) (e : string)
  : Reply (list string) :=
  match getAccountsByExchange cfg e with
  | [] => Error 404 "Exchange not found"
  | l => Json (map name l)
  end.

(* ------------------------------------------------------------------ *)
(** ** The route table of [exchange.routes.ts]

    Express tries the layers of a router in registration order; a route
    matches by method and path, a [use] layer by path prefix.  Paths are
    matched case-insensitively and a parameter matches one non-empty
    segment.  A path is given as its list of segments. *)

Inductive Method := GET | POST.

Definition methodEqb (m1 m2 : Method) : bool :=
  match m1, m2 with GET, GET | POST, POST => true | _, _ => false end.

Inductive Seg :=
| Lit (s : string)
| Param.

Inductive Layer :=
| Route (m : Method) (pat : list Seg) (handler : string)
| Use (prefix : list string) (handler : string).

Definition layerHandler (l : Layer) : string :=
  match l with Route _ _ h => h | Use _ h => h end.

(** The layers in the order of the file. *)
Definition exchangeRoutes : list Layer :=
  [Route GET [] "root";
   Use ["test"] "static";
   Route GET [Lit "search"] "search";
   Route GET [Lit "data"] "data";
   Route GET [Lit "positions"; Param] "positions";
   Route GET [Lit "account-summary"; Param] "accountSummary";
   Route GET [Lit "available"] "available";
   Route POST [Lit "set-current"] "setCurrent";
   Route GET [Lit "health"] "health";
   Route GET [Lit "accounts"; Param] "accountsByExchange";
   Route GET [Lit "accounts"] "accounts";
   Route GET [Lit "accounts"; Param] "accountByName";
   Route POST [Lit "accounts"] "addAccount";
   Route POST [Lit "account-metrics"] "accountMetrics"].

Definition ascii_lower (c : Ascii.ascii) : Ascii.ascii :=
  let k := Ascii.nat_of_ascii c in
  if (65 <=? k)%nat && (k <=? 90)%nat then Ascii.ascii_of_nat (k + 32) else c.

Fixpoint lower (s : string) : string :=
  match s with
  | EmptyString => EmptyString
  | String c r => String (ascii_lower c) (lower r)
  end.

Definition segEqb (a b : string) : bool := String.eqb (lower a) (lower b).

Fixpoint segsMatch (pat : list Seg) (path : list string) : bool :=
  match pat, path with
  | [], [] => true
  | Lit s :: pat', x :: path' => segEqb s x && segsMatch pat' path'
  | Param :: pat', x :: path' => negb (String.eqb x "") && segsMatch pat' path'
  | _, _ => false
  end.

Fixpoint prefixMatch (pre path : list string) : bool :=
  match pre, path with
  | [], _ => true
  | p :: pre', x :: path' => segEqb p x && prefixMatch pre' path'
  | _ :: _, [] => false
  end.

Definition layerMatches (m : Method) (path : list string) (l : Layer) : bool :=
  match l with
  | Route m' pat _ => methodEqb m m' && segsMatch pat path
  | Use pre _ => prefixMatch pre path
  end.

(** The layers a request runs through, in order, until one answers. *)
Definition matchingLayers (m : Method) (path : list string) : list Layer :=
  filter (fun l => layerMatches m path l = true) exchangeRoutes.

(* ------------------------------------------------------------------ *)
(** ** [GET /available] *)

(** [configs[k] = v] on a plain object, kept as its own properties in
    creation order: an existing property is overwritten in place, a new
    one is added at the end; [configs["__proto__"] = v] with an object [v]
    replaces the prototype and adds no own property. *)
Definition jsAssign {A} (k : string) (v : A) (o : list (string * A))
  : list (string * A) :=
  if String.eqb k "__proto__" then o
  else if existsb (fun p => String.eqb p.1 k) o
  then map (fun p => if String.eqb p.1 k then (k, v) else p) o
  else o ++ [(k, v)].

(** The object built by [getAllAccountConfigs()], lines 106-112. *)
Definition allAccountConfigsObj (cfg : list AccountConfig)
  : list (string * AccountConfig) :=
  fold_left (fun o c => jsAssign (name c) c o) cfg [].

Definition digitVal (c : Ascii.ascii) : option N :=
  let k := Ascii.nat_of_ascii c in
  if (48 <=? k)%nat && (k <=? 57)%nat then Some (N.of_nat (k - 48)) else None.

Fixpoint digitsVal (s : string) (acc : N) : option N :=
  match s with
  | EmptyString => Some acc
  | String c r =>
    match digitVal c with
    | Some d => digitsVal r (acc * 10 + d)%N
    | None => None
    end
  end.

(** The array index a property key denotes: "0", or decimal digits
    without a leading 0 for a value below 2^32 - 1. *)
Definition arrayIndex (k : string) : option N :=
  match k with
  | EmptyString => None
  | String c r =>
    if (Ascii.nat_of_ascii c =? 48)%nat then (if String.eqb r "" then Some 0%N else None)
    else match digitsVal k 0 with
         | Some v => if (v <? 4294967295)%N then Some v else None
         | None => None
         end
  end.

Fixpoint insertByIndex {A} (p : N * A) (l : list (N * A)) : list (N * A) :=
  match l with
  | [] => [p]
  | q :: r => if (p.1 <=? q.1)%N then p :: q :: r else q :: insertByIndex p r
  end.

(** [Object.values(o)]: the values of the array-index keys in ascending
    index order, then those of the other keys in creation order. *)
Definition objectValues {A} (o : list (string * A)) : list A :=
  map snd (fold_right (fun p acc =>
             match arrayIndex p.1 with
             | Some i => insertByIndex (i, p.2) acc
             | None => acc
             end) [] o)
  ++ map snd (filter (fun p => arrayIndex p.1 = None) o).

(** [[...new Set(xs)]]: the first occurrence of each value, in order;
    [seen] holds the values already in the set. *)
Fixpoint uniqueFirst (seen : list string) (xs : list string) : list string :=
  match xs with
  | [] => []
  | x :: r =>
    if bool_decide (x ∈ seen) then uniqueFirst seen r
    else x :: uniqueFirst (x :: seen) r
  end.

(** [GET /available]:
    [[...new Set(Object.values(getAllAccountConfigs()).map(a => a.exchange))]]. *)
Definition availableRoute (cfg : list AccountConfig) : list string :=
  uniqueFirst [] (map exchange (objectValues (allAccountConfigsObj cfg))).

(* ------------------------------------------------------------------ *)
(** ** [POST /variable] of [index.ts]

    The handler reads [getCachedData()], whose copy has the cache's
    content; [target] is a string or missing. *)

(** The properties an array inherits from [Array.prototype] (ES2023) and
    [Object.prototype]; all but ["__proto__"] are functions. *)
Definition arrayProtoProps : list string :=
  ["at"; "concat"; "copyWithin"; "entries"; "every"; "fill"; "filter"; "find";
   "findIndex"; "findLast"; "findLastIndex"; "flat"; "flatMap"; "forEach";
   "includes"; "indexOf"; "join"; "keys"; "lastIndexOf"; "map"; "pop"; "push";
   "reduce"; "reduceRight"; "reverse"; "shift"; "slice"; "some"; "sort";
   "splice"; "toReversed"; "toSorted"; "toSpliced"; "unshift"; "values";
   "with"] ++ objectProtoProps.

(** Reading [arr[k]] on an array of strings. *)
Inductive ArrRead :=
| AElem (s : string)
| ALength (n : Z)
| AProto
| AFun
| AUndef.

Definition arrGet (l : list string) (k : string) : ArrRead :=
  match arrayIndex k with
  | Some i => match nth_error l (N.to_nat i) with Some s => AElem s | None => AUndef end
  | None =>
    if String.eqb k "length" then ALength (Z.of_nat (length l))
    else if String.eqb k "__proto__" then AProto
    else if bool_decide (k ∈ arrayProtoProps) then AFun
    else AUndef
  end.

(** No character of [x] is "/" (code 47). *)
Fixpoint noSlash (x : string) : bool :=
  match x with
  | EmptyString => true
  | String c r => negb (Ascii.nat_of_ascii c =? 47)%nat && noSlash r
  end.

(** [target.match(/^\/api\/accounts\/([^/]+)$/)], the captured group. *)
Definition accountsTarget (t : string) : option string :=
  let pre := "/api/accounts/" in
  if String.prefix pre t then
    let x := String.substring (String.length pre) (String.length t - String.length pre) t in
    if String.eqb x "" then None else if noSlash x then Some x else None
  else None.

(** What [res.json] sends for the values this handler produces. *)
Inductive VarValue :=
| VList (l : list string)
| VStr (s : string)
| VNum (z : Z).

(** [POST /variable], lines 43-67: [data.availableExchanges] is read on
    the cache copy, which has no such property. *)
Definition variableRoute (target : option string) (st : St) : Reply VarValue :=
  match target with
  | None => Error 400 "Unknown variable target"
  | Some t =>
    if String.eqb t "/api/available" then Json (VList [])
    else
      match accountsTarget t with
      | None => Error 400 "Unknown variable target"
      | Some x =>
        match arrGet (availableAccounts (cachedData st)) x with
        | AElem s =>
          if String.eqb s "" then Error 404 "Exchange not found" else Json (VStr s)
        | ALength n =>
          if Z.eqb n 0 then Error 404 "Exchange not found" else Json (VNum n)
        | AProto => Json (VList [])
        | AFun => NoBody
        | AUndef => Error 404 "Exchange not found"
        end
      end
  end.

(* ------------------------------------------------------------------ *)
(** ** Auxiliary definitions for the proofs *)

(** The loop body of [initializeAllAccounts]. *)
Definition initStep (inits : string -> bool) (s : St) (c : AccountConfig) : St :=
  match initializeAccount c (inits (name c)) "initialize failed" s with
  | Ret s' => s'
  | Throw _ => s
  end.

(** Some configuration entry of [l] named [n] gets a client. *)
Definition initWitness (inits : string -> bool) (l : list AccountConfig) (n : string) : Prop :=
  exists c, c ∈ l /\ name c = n /\ inits n = true /\
            (exchange c, accountType c) ∈ supportedKinds.

#[global] Instance initWitness_dec inits l n : Decision (initWitness inits l n).
Proof.
  unfold initWitness. induction l as [|c l IH].
  - right. intros (c & Hc & _). by apply elem_of_nil in Hc.
  - destruct IH as [Hy|Hn].
    + left. destruct Hy as (c' & ? & ?). exists c'. rewrite elem_of_cons. auto.
    + destruct (decide (name c = n /\ inits n = true /\
                        (exchange c, accountType c) ∈ supportedKinds)) as [Hc|Hc].
      * left. exists c. rewrite elem_of_cons. auto.
      * right. intros (c' & Hc' & Hr). apply elem_of_cons in Hc' as [->|Hc']; [tauto|].
        apply Hn. eauto.
Defined.

(** Facts that hold in every reachable state: error counts are not
    negative; only registered names have tracking entries or cached data;
    [cachedData.accountConfigs] maps a name to a configuration entry with
    that name. *)
Definition state_inv (st : St) : Prop :=
  (forall a c, errorCounts st !! a = Some c -> 0 <= c) /\
  (forall a, (is_Some (lastFetchTimes st !! a) \/ is_Some (errorCounts st !! a) \/
              is_Some (backoffTimes st !! a) \/ is_Some (accounts (cachedData st) !! a)) ->
             is_Some (exchangeClients st !! a)) /\
  (forall a c, accountConfigs (cachedData st) !! a = Some c ->
               name c = a /\ c ∈ config_accounts st).

(* ------------------------------------------------------------------ *)
(** ** General lemmas *)

Ltac step_cases :=
  unfold fetchAccountStep, fetchAccountData;
  repeat match goal with
  | |- context [exchangeClients ?s !! ?x] =>
      destruct (exchangeClients s !! x) eqn:?
  | |- context [gt_opt ?o ?t] => destruct (gt_opt o t) eqn:?
  | |- context [outcome ?ob] => destruct (outcome ob) eqn:?
  | |- context [bool_decide ?p] => destruct (bool_decide p) eqn:?
  | |- context [getAccountConfig ?s ?x] => destruct (getAccountConfig s x) eqn:?
  end; simpl.

Lemma step_config ob a st :
  config_accounts (fetchAccountStep ob a st) = config_accounts st.
Proof. step_cases; reflexivity. Qed.

Lemma step_clients ob a st :
  exchangeClients (fetchAccountStep ob a st) = exchangeClients st.
Proof. step_cases; reflexivity. Qed.

Lemma step_available ob a st :
  availableAccounts (cachedData (fetchAccountStep ob a st))
  = availableAccounts (cachedData st).
Proof. step_cases; reflexivity. Qed.

(** A step on account [b] leaves every other account's entries alone. *)
Lemma step_frame ob a b st :
  b <> a -> acct_view (fetchAccountStep ob b st) a = acct_view st a.
Proof.
  intros Hne. unfold fetchAccountStep, fetchAccountData.
  destruct (exchangeClients st !! b); [|reflexivity].
  destruct (gt_opt (backoffTimes st !! b) (t_check ob)); [reflexivity|].
  unfold acct_view; destruct (outcome ob); simpl.
  - destruct (getAccountConfig _ b); simpl;
      rewrite ?lookup_insert_ne by congruence; reflexivity.
  - destruct (bool_decide _); simpl;
      rewrite ?lookup_insert_ne by congruence; reflexivity.
Qed.

(** A step on account [b] depends only on what is stored about [b]. *)
Lemma step_local ob b s1 s2 :
  acct_view s1 b = acct_view s2 b ->
  config_accounts s1 = config_accounts s2 ->
  acct_view (fetchAccountStep ob b s1) b = acct_view (fetchAccountStep ob b s2) b.
Proof.
  unfold acct_view. intros Hv Hc. injection Hv as H1 H2 H3 H4 H5 H6.
  unfold fetchAccountStep, fetchAccountData, getAccountConfig.
  rewrite H1, H3, H4, Hc.
  destruct (exchangeClients s2 !! b) eqn:E.
  2:{ simpl. rewrite H1, E, H2, H3, H4, H5, H6. reflexivity. }
  destruct (gt_opt (backoffTimes s2 !! b) (t_check ob)).
  { simpl. rewrite H1, E, H2, H3, H4, H5, H6. reflexivity. }
  destruct (outcome ob); simpl.
  - destruct (getAccountByName (config_accounts s2) b); simpl;
      rewrite ?lookup_insert_eq, H1, E, ?H6; reflexivity.
  - destruct (bool_decide _); simpl;
      rewrite ?lookup_insert_eq, H1, E, H2, ?H4, H5, H6; reflexivity.
Qed.

Lemma runMany_app l1 l2 st :
  runMany (l1 ++ l2) st = runMany l2 (runMany l1 st).
Proof. revert st. induction l1 as [|[b ob] l1 IH]; intros st; simpl; auto. Qed.

Lemma fold_steps_runMany (obs : string -> Obs) (l : list string) st :
  fold_left (fun s a => fetchAccountStep (obs a) a s) l st
  = runMany (map (fun a => (a, obs a)) l) st.
Proof. revert st. induction l as [|a l IH]; intros st; simpl; auto. Qed.

Lemma pass_runMany obs st :
  fetchAllAccountsData obs st
  = runMany (map (fun a => (a, obs a)) (getAvailableAccounts st)) st.
Proof. apply fold_steps_runMany. Qed.

Lemma runMany_clients steps st :
  exchangeClients (runMany steps st) = exchangeClients st.
Proof.
  revert st. induction steps as [|[b ob] l IH]; intros st; simpl; auto.
  rewrite IH. apply step_clients.
Qed.

Lemma runMany_config steps st :
  config_accounts (runMany steps st) = config_accounts st.
Proof.
  revert st. induction steps as [|[b ob] l IH]; intros st; simpl; auto.
  rewrite IH. apply step_config.
Qed.

(* ------------------------------------------------------------------ *)
(** ** The tracking invariant holds in every reachable state *)

Lemma inv_initial cfg : fetch_inv (initialState cfg).
Proof. intros a cl H. simpl in H. rewrite lookup_empty in H. discriminate. Qed.

Lemma inv_initializeAccount c ok err st st' :
  fetch_inv st -> initializeAccount c ok err st = Ret st' -> fetch_inv st'.
Proof.
  unfold initializeAccount. intros Hinv Hi.
  destruct (makeClient c) as [cl|m]; [|discriminate].
  destruct ok; [|discriminate]. injection Hi as <-.
  intros a cl' Ha; simpl in *.
  destruct (decide (a = name c)) as [->|Hne].
  - rewrite !lookup_insert_eq. eauto.
  - rewrite lookup_insert_ne in Ha by congruence.
    rewrite !lookup_insert_ne by congruence. eauto.
Qed.

Lemma inv_initializeAll_fold inits (l : list AccountConfig) st :
  fetch_inv st ->
  fetch_inv (fold_left (fun s c =>
      match initializeAccount c (inits (name c)) "initialize failed" s with
      | Ret s' => s'
      | Throw _ => s
      end) l st).
Proof.
  revert st. induction l as [|c l IH]; intros st Hinv; simpl; auto.
  apply IH. destruct (initializeAccount _ _ _ st) eqn:E; auto.
  eapply inv_initializeAccount; eauto.
Qed.

Lemma inv_setup inits st : fetch_inv st -> fetch_inv (startDataFetcher_setup inits st).
Proof.
  intros Hinv. pose proof (inv_initializeAll_fold inits (config_accounts st) st Hinv) as H.
  unfold startDataFetcher_setup, initializeAllAccounts. intros a cl Ha.
  exact (H a cl Ha).
Qed.

Lemma inv_step ob b st : fetch_inv st -> fetch_inv (fetchAccountStep ob b st).
Proof.
  intros Hinv a cl Ha. rewrite step_clients in Ha.
  destruct (decide (b = a)) as [<-|Hne].
  - destruct (Hinv b cl Ha) as (c & bo & Hc & Hb & Hcb).
    unfold fetchAccountStep, fetchAccountData. rewrite Ha.
    destruct (gt_opt _ _); [simpl; eauto|].
    destruct (outcome ob); simpl.
    + rewrite !lookup_insert_eq. eauto.
    + rewrite Hc. simpl. rewrite lookup_insert_eq.
      destruct (bool_decide _) eqn:Hd; simpl.
      * rewrite lookup_insert_eq. eexists _, _. split; [reflexivity|].
        split; [reflexivity|]. apply bool_decide_eq_true in Hd.
        unfold MAX_CONSECUTIVE_ERRORS in *. lia.
      * apply bool_decide_eq_false in Hd. unfold MAX_CONSECUTIVE_ERRORS in *.
        exists (c + 1), bo. repeat split; auto. intros. apply Hcb. lia.
  - pose proof (step_frame ob a b st Hne) as Hf. unfold acct_view in Hf.
    injection Hf as _ _ H3 H4 _ _. rewrite H3, H4.
    exact (Hinv a cl Ha).
Qed.

Lemma inv_post body ok st : fetch_inv st -> fetch_inv (postAccounts body ok st).1.
Proof.
  intros Hinv. unfold postAccounts.
  destruct (_ || _); simpl; auto.
  destruct (getAccountConfig _ _); simpl; auto.
  destruct (initializeAccount _ _ _ st) eqn:E; simpl; auto.
  eapply inv_initializeAccount; eauto.
Qed.

Lemma inv_select n st st' :
  fetch_inv st -> setCurrentAccount n st = Ret st' -> fetch_inv st'.
Proof.
  unfold setCurrentAccount. intros Hinv Hs.
  destruct (bool_decide _); [|discriminate]. injection Hs as <-. exact Hinv.
Qed.

Lemma reachable_inv st : reachable st -> fetch_inv st.
Proof.
  induction 1.
  - apply inv_initial.
  - by apply inv_setup.
  - by apply inv_step.
  - by apply inv_post.
  - eapply inv_select; eauto.
Qed.

Lemma reachable_stAB : reachable stAB.
Proof. apply r_setup, r_init. Qed.

(* ------------------------------------------------------------------ *)
(** ** One fetch step, case by case *)

Lemma gt_opt_false (o : option Z) (t : Z) :
  (forall b, o = Some b -> b <= t) -> gt_opt o t = false.
Proof.
  destruct o as [b|]; simpl; auto. intros H.
  apply bool_decide_eq_false. specialize (H b eq_refl). lia.
Qed.

Lemma gt_opt_false_le (o : option Z) (t : Z) :
  gt_opt o t = false -> forall b, o = Some b -> b <= t.
Proof.
  intros H b ->. simpl in H. apply bool_decide_eq_false in H. lia.
Qed.

Lemma step_success st a ob cl d :
  exchangeClients st !! a = Some cl ->
  gt_opt (backoffTimes st !! a) (t_check ob) = false ->
  outcome ob = Resolved d ->
  fetchAccountStep ob a st =
    mkSt (config_accounts st) (exchangeClients st)
         (<[a := t_done ob]> (lastFetchTimes st))
         (<[a := 0]> (errorCounts st)) (<[a := 0]> (backoffTimes st))
         (mkCombinedData (<[a := d]> (accounts (cachedData st)))
            (currentAccount (cachedData st)) (availableAccounts (cachedData st))
            (match getAccountConfig st a with
             | Some cf => <[a := cf]> (accountConfigs (cachedData st))
             | None => accountConfigs (cachedData st)
             end))
         (a :: connectorCalls st).
Proof.
  intros Hcl Hnb Hok. unfold fetchAccountStep, fetchAccountData.
  rewrite Hcl, Hnb, Hok. reflexivity.
Qed.

Lemma step_failure st a ob cl :
  exchangeClients st !! a = Some cl ->
  gt_opt (backoffTimes st !! a) (t_check ob) = false ->
  outcome ob = Rejected ->
  let cnt := or0 (errorCounts st !! a) + 1 in
  fetchAccountStep ob a st =
    mkSt (config_accounts st) (exchangeClients st) (lastFetchTimes st)
         (<[a := cnt]> (errorCounts st))
         (if bool_decide (MAX_CONSECUTIVE_ERRORS <= cnt)
          then <[a := t_done ob + INITIAL_BACKOFF *
                      2 ^ Z.min (cnt - MAX_CONSECUTIVE_ERRORS) 5]>
                 (backoffTimes st)
          else backoffTimes st)
         (cachedData st) (a :: connectorCalls st).
Proof.
  intros Hcl Hnb Hfail cnt. unfold fetchAccountStep, fetchAccountData.
  rewrite Hcl, Hnb, Hfail. reflexivity.
Qed.

Lemma step_skip st a ob :
  gt_opt (backoffTimes st !! a) (t_check ob) = true ->
  fetchAccountData ob a st = (st, None) /\ fetchAccountStep ob a st = st.
Proof.
  intros Hb. unfold fetchAccountStep, fetchAccountData.
  destruct (exchangeClients st !! a); [rewrite Hb|]; auto.
Qed.

Lemma step_no_client st a ob :
  exchangeClients st !! a = None ->
  fetchAccountData ob a st = (st, None) /\ fetchAccountStep ob a st = st.
Proof.
  intros Hn. unfold fetchAccountStep, fetchAccountData. rewrite Hn. auto.
Qed.

Lemma step_rejected_cache st a ob :
  outcome ob = Rejected -> cachedData (fetchAccountStep ob a st) = cachedData st.
Proof.
  intros Hf. unfold fetchAccountStep, fetchAccountData.
  destruct (exchangeClients st !! a); [|reflexivity].
  destruct (gt_opt _ _); [reflexivity|]. rewrite Hf. reflexivity.
Qed.

Lemma runMany_no_client steps st a :
  exchangeClients st !! a = None -> acct_view (runMany steps st) a = acct_view st a.
Proof.
  revert st. induction steps as [|[b ob] l IH]; intros st Hn; simpl; auto.
  rewrite IH.
  - destruct (decide (b = a)) as [->|Hne].
    + by rewrite (proj2 (step_no_client st a ob Hn)).
    + by apply step_frame.
  - by rewrite step_clients.
Qed.

Lemma runPasses_runMany passes st :
  exists steps, runPasses passes st = runMany steps st.
Proof.
  revert st. induction passes as [|obs l IH]; intros st; simpl.
  - by exists [].
  - destruct (IH (fetchAllAccountsData obs st)) as [steps Hs].
    rewrite Hs, pass_runMany, <- runMany_app. eauto.
Qed.

Lemma runMany_outage steps st a :
  Forall (fun '(b, ob) => b = a -> outcome ob = Rejected) steps ->
  accounts (cachedData (runMany steps st)) !! a = accounts (cachedData st) !! a.
Proof.
  revert st. induction steps as [|[b ob] l IH]; intros st Hf; simpl; auto.
  inversion Hf as [|x y Hb Hl]; subst. rewrite IH by exact Hl.
  destruct (decide (b = a)) as [->|Hne].
  - by rewrite step_rejected_cache by auto.
  - pose proof (step_frame ob a b st Hne) as Hv. unfold acct_view in Hv.
    by injection Hv.
Qed.

Lemma setup_accounts inits cfg :
  accounts (cachedData (startDataFetcher_setup inits (initialState cfg))) = ∅.
Proof.
  assert (Hg : forall l s, cachedData s = emptyCache ->
    accounts (cachedData (fold_left (fun s c =>
      match initializeAccount c (inits (name c)) "initialize failed" s with
      | Ret s' => s' | Throw _ => s end) l s)) = ∅).
  { induction l as [|c l IH]; intros s Hs; simpl; [by rewrite Hs|].
    apply IH. unfold initializeAccount.
    destruct (makeClient c); [destruct (inits (name c))|]; simpl; auto. }
  unfold startDataFetcher_setup, initializeAllAccounts. cbn [cachedData accounts].
  apply Hg. reflexivity.
Qed.

(* ------------------------------------------------------------------ *)
(** ** Claims about one fetch attempt *)

(** C1: a failed fetch attempt of an initialised account that is not in
    backoff increments its error count by one; from the 5th consecutive
    failure on, the backoff ends at [now + 30000 * 2 ^ min(count - 5, 5)]
    ([now + 30000] at the 5th, [now + 960000] from the 11th on); below 5
    failures the backoff time stays 0.  [now] is [Date.now()] after the
    connector rejected. *)
Theorem fetch_failure_backoff (st : St) (a : string) (ob : Obs) (cl : ExchangeClient)
    (Hinv : fetch_inv st)
    (Hcl : exchangeClients st !! a = Some cl)
    (Hnb : forall b, backoffTimes st !! a = Some b -> b <= t_check ob)
    (Hfail : outcome ob = Rejected) :
  let st' := fetchAccountStep ob a st in
  let cnt := or0 (errorCounts st !! a) + 1 in
  connectorCalls st' = a :: connectorCalls st /\
  errorCounts st' !! a = Some cnt /\
  (MAX_CONSECUTIVE_ERRORS <= cnt ->
     backoffTimes st' !! a =
       Some (t_done ob + INITIAL_BACKOFF * 2 ^ Z.min (cnt - MAX_CONSECUTIVE_ERRORS) 5)) /\
  (cnt = 5 -> backoffTimes st' !! a = Some (t_done ob + 30000)) /\
  (11 <= cnt -> backoffTimes st' !! a = Some (t_done ob + 960000)) /\
  (cnt < 5 -> backoffTimes st' !! a = Some 0).
Proof.
  intros st' cnt. unfold st'.
  rewrite (step_failure st a ob cl Hcl (gt_opt_false _ _ Hnb) Hfail). simpl.
  fold cnt. rewrite lookup_insert_eq.
  destruct (Hinv a cl Hcl) as (c & b & Hc & Hb & Hcb).
  unfold MAX_CONSECUTIVE_ERRORS, INITIAL_BACKOFF in *.
  assert (Hcnt : cnt = c + 1) by (unfold cnt; rewrite Hc; reflexivity).
  destruct (bool_decide (5 <= cnt)) eqn:Hd;
    [apply bool_decide_eq_true in Hd | apply bool_decide_eq_false in Hd].
  - rewrite lookup_insert_eq. repeat split; intros; try lia.
    + subst cnt. f_equal. rewrite H. reflexivity.
    + f_equal. rewrite (Z.min_r (cnt - 5) 5) by lia. reflexivity.
  - repeat split; intros; try lia. rewrite Hb, Hcb by lia. reflexivity.
Qed.

Lemma fetch_failure_backoff_witness :
  errorCounts (fetchAccountStep (failAt 7) "A" stAB) !! "A" = Some 1 /\
  backoffTimes (fetchAccountStep (failAt 7) "A" stAB) !! "A" = Some 0.
Proof.
  assert (Hnb : forall b, backoffTimes stAB !! "A" = Some b -> b <= t_check (failAt 7)).
  { apply gt_opt_false_le. vm_compute. reflexivity. }
  destruct (fetch_failure_backoff stAB "A" (failAt 7)
              (BinanceClient FUTURES "kA" "sA" None)
              (reachable_inv stAB reachable_stAB) eq_refl Hnb eq_refl)
    as (_ & Hc & _ & _ & _ & Hb).
  split.
  - rewrite Hc. reflexivity.
  - apply Hb. vm_compute. reflexivity.
Defined.

(** C2: a successful fetch of an initialised account not in backoff, from
    any error count and backoff time, sets the last fetch time to [now],
    the error count and the backoff time to 0, and stores the snapshot in
    the cache under the account name. *)
Theorem fetch_success_resets (st : St) (a : string) (ob : Obs)
    (cl : ExchangeClient) (d : ExchangeData)
    (Hcl : exchangeClients st !! a = Some cl)
    (Hnb : forall b, backoffTimes st !! a = Some b -> b <= t_check ob)
    (Hok : outcome ob = Resolved d) :
  let st' := fetchAccountStep ob a st in
  connectorCalls st' = a :: connectorCalls st /\
  lastFetchTimes st' !! a = Some (t_done ob) /\
  errorCounts st' !! a = Some 0 /\
  backoffTimes st' !! a = Some 0 /\
  accounts (cachedData st') !! a = Some d.
Proof.
  intros st'. unfold st'.
  rewrite (step_success st a ob cl d Hcl (gt_opt_false _ _ Hnb) Hok). simpl.
  rewrite !lookup_insert_eq. auto.
Qed.

Lemma fetch_success_resets_witness :
  accounts (cachedData (fetchAccountStep (okAt 40000 snapA) "A" stAfail)) !! "A"
    = Some snapA /\
  errorCounts (fetchAccountStep (okAt 40000 snapA) "A" stAfail) !! "A" = Some 0.
Proof.
  assert (Hnb : forall b, backoffTimes stAfail !! "A" = Some b ->
                          b <= t_check (okAt 40000 snapA)).
  { apply gt_opt_false_le. vm_compute. reflexivity. }
  destruct (fetch_success_resets stAfail "A" (okAt 40000 snapA)
              (BinanceClient FUTURES "kA" "sA" None) snapA eq_refl Hnb eq_refl)
    as (_ & _ & Hc & _ & Hd).
  split; assumption.
Defined.

(** C3: while the backoff time of an account is later than [now], a fetch
    attempt returns [null] without calling the connector and leaves the
    whole state (tracking maps, cache, connector calls) unchanged. *)
Theorem backoff_skips_fetch (st : St) (a : string) (ob : Obs) (b : Z)
    (Hb : backoffTimes st !! a = Some b) (Hlt : t_check ob < b) :
  fetchAccountData ob a st = (st, None) /\ fetchAccountStep ob a st = st.
Proof.
  apply step_skip. rewrite Hb. simpl. by apply bool_decide_eq_true.
Qed.

Lemma backoff_skips_fetch_witness :
  fetchAccountStep (okAt 6 snapA) "A" stAfail = stAfail.
Proof.
  assert (Hb : backoffTimes stAfail !! "A" = Some 30005) by (vm_compute; reflexivity).
  assert (Hlt : t_check (okAt 6 snapA) < 30005) by (simpl; lia).
  exact (proj2 (backoff_skips_fetch stAfail "A" (okAt 6 snapA) 30005 Hb Hlt)).
Defined.

(** C6: a failed fetch (the connector rejects) leaves the cache as it
    was; during an outage of account [a] (every attempt for [a] fails,
    other accounts do anything) the cache entry of [a] keeps its last
    stored snapshot, and stays absent if none was ever stored after
    startup. *)
Theorem failed_fetch_keeps_cache (st : St) (a : string) :
  (forall ob, outcome ob = Rejected ->
     cachedData (fetchAccountStep ob a st) = cachedData st) /\
  (forall steps, Forall (fun '(b, ob) => b = a -> outcome ob = Rejected) steps ->
     accounts (cachedData (runMany steps st)) !! a = accounts (cachedData st) !! a) /\
  (forall cfg inits steps,
     Forall (fun '(b, ob) => b = a -> outcome ob = Rejected) steps ->
     accounts (cachedData (runMany steps
                 (startDataFetcher_setup inits (initialState cfg)))) !! a = None).
Proof.
  split; [|split].
  - intros ob. apply step_rejected_cache.
  - intros steps. apply runMany_outage.
  - intros cfg inits steps Hf. rewrite runMany_outage by exact Hf.
    rewrite setup_accounts. apply lookup_empty.
Qed.

Lemma failed_fetch_keeps_cache_witness :
  accounts (cachedData (fetchAccountStep (failAt 20) "A" stAok)) !! "A" = Some snapA.
Proof.
  rewrite (proj1 (failed_fetch_keeps_cache stAok "A") (failAt 20) eq_refl).
  vm_compute. reflexivity.
Defined.

(** C10: for an account with no stored connector client, a fetch attempt
    returns [null] and changes nothing; any number of passes leaves its
    tracking entries and its cache entry as they were. *)
Theorem no_client_fetch_noop (st : St) (a : string)
    (Hnc : exchangeClients st !! a = None) :
  (forall ob, fetchAccountData ob a st = (st, None) /\ fetchAccountStep ob a st = st) /\
  (forall passes, acct_view (runPasses passes st) a = acct_view st a).
Proof.
  split.
  - intros ob. by apply step_no_client.
  - intros passes. destruct (runPasses_runMany passes st) as [steps ->].
    by apply runMany_no_client.
Qed.

Lemma no_client_fetch_noop_witness :
  fetchAccountStep (failAt 1) "A" stAdown = stAdown /\
  errorCounts (runPasses [fun _ => failAt 1; fun _ => failAt 40001] stAdown) !! "A"
    = errorCounts stAdown !! "A".
Proof.
  assert (Hnc : exchangeClients stAdown !! "A" = None) by (vm_compute; reflexivity).
  destruct (no_client_fetch_noop stAdown "A" Hnc) as [H1 H2]. split.
  - exact (proj2 (H1 (failAt 1))).
  - pose proof (H2 [fun _ => failAt 1; fun _ => failAt 40001]) as Hv.
    exact (f_equal (fun v => v.1.1.1.2) Hv).
Defined.

(** C8: in a pass over the two configured accounts [A] and [B], in either
    order, with [A]'s fetch succeeding and [B]'s failing, [A]'s cache entry becomes the new
    snapshot, [B]'s cache entry is unchanged, [A]'s error count is 0 and
    [B]'s is incremented; each account ends as its own fetch alone would
    leave it, and no other account changes. *)
Theorem pass_isolation (st : St) (obs : string -> Obs) (A B : string)
    (clA clB : ExchangeClient) (d : ExchangeData)
    (Hne : A <> B)
    (Hcfg : getAvailableAccounts st = [A; B] \/ getAvailableAccounts st = [B; A])
    (HclA : exchangeClients st !! A = Some clA)
    (HclB : exchangeClients st !! B = Some clB)
    (HnbA : forall b, backoffTimes st !! A = Some b -> b <= t_check (obs A))
    (HnbB : forall b, backoffTimes st !! B = Some b -> b <= t_check (obs B))
    (HokA : outcome (obs A) = Resolved d)
    (HfailB : outcome (obs B) = Rejected) :
  let st' := fetchAllAccountsData obs st in
  accounts (cachedData st') !! A = Some d /\
  accounts (cachedData st') !! B = accounts (cachedData st) !! B /\
  errorCounts st' !! A = Some 0 /\
  errorCounts st' !! B = Some (or0 (errorCounts st !! B) + 1) /\
  acct_view st' A = acct_view (fetchAccountStep (obs A) A st) A /\
  acct_view st' B = acct_view (fetchAccountStep (obs B) B st) B /\
  (forall c, c <> A -> c <> B -> acct_view st' c = acct_view st c).
Proof.
  intros st'.
  assert (Hv : acct_view st' A = acct_view (fetchAccountStep (obs A) A st) A /\
               acct_view st' B = acct_view (fetchAccountStep (obs B) B st) B /\
               (forall c, c <> A -> c <> B -> acct_view st' c = acct_view st c)).
  { destruct Hcfg as [Hcfg|Hcfg].
    - assert (Hst' : st' = fetchAccountStep (obs B) B (fetchAccountStep (obs A) A st)).
      { unfold st', fetchAllAccountsData. rewrite Hcfg. reflexivity. }
      rewrite Hst'. split; [apply step_frame; congruence|]. split.
      + apply step_local; [by apply step_frame | apply step_config].
      + intros c HcA HcB. rewrite step_frame by congruence. by apply step_frame.
    - assert (Hst' : st' = fetchAccountStep (obs A) A (fetchAccountStep (obs B) B st)).
      { unfold st', fetchAllAccountsData. rewrite Hcfg. reflexivity. }
      rewrite Hst'. split; [|split].
      + apply step_local; [by apply step_frame | apply step_config].
      + apply step_frame. congruence.
      + intros c HcA HcB. rewrite step_frame by congruence. by apply step_frame. }
  clearbody st'. destruct Hv as (HvA & HvB & Hother).
  pose proof (step_success st A (obs A) clA d HclA (gt_opt_false _ _ HnbA) HokA) as EA.
  pose proof (step_failure st B (obs B) clB HclB (gt_opt_false _ _ HnbB) HfailB) as EB.
  simpl in EB.
  pose proof HvA as HvA'. pose proof HvB as HvB'.
  rewrite EA in HvA'. rewrite EB in HvB'. unfold acct_view in HvA', HvB'.
  cbn [cachedData accounts errorCounts] in HvA', HvB'.
  injection HvA' as _ _ HA3 _ HA5 _. injection HvB' as _ _ HB3 _ HB5 _.
  rewrite lookup_insert_eq in HA3. rewrite lookup_insert_eq in HA5.
  rewrite lookup_insert_eq in HB3.
  do 6 (split; [assumption|]).
  exact Hother.
Qed.

Lemma pass_isolation_witness :
  accounts (cachedData (fetchAllAccountsData obsAB stAB)) !! "A" = Some snapA /\
  errorCounts (fetchAllAccountsData obsAB stAB) !! "B" = Some 1 /\
  accounts (cachedData (fetchAllAccountsData obsAB stBA)) !! "A" = Some snapA /\
  errorCounts (fetchAllAccountsData obsAB stBA) !! "B" = Some 1.
Proof.
  assert (Hne : "A" <> "B") by discriminate.
  assert (Hcfg : getAvailableAccounts stAB = ["A"; "B"]) by reflexivity.
  assert (HclA : exchangeClients stAB !! "A" = Some (BinanceClient FUTURES "kA" "sA" None))
    by (vm_compute; reflexivity).
  assert (HclB : exchangeClients stAB !! "B"
                 = Some (BinanceClient PORTFOLIO_MARGIN "kB" "sB" None))
    by (vm_compute; reflexivity).
  assert (HnbA : forall b, backoffTimes stAB !! "A" = Some b -> b <= t_check (obsAB "A"))
    by (apply gt_opt_false_le; vm_compute; reflexivity).
  assert (HnbB : forall b, backoffTimes stAB !! "B" = Some b -> b <= t_check (obsAB "B"))
    by (apply gt_opt_false_le; vm_compute; reflexivity).
  destruct (pass_isolation stAB obsAB "A" "B" _ _ snapA Hne (or_introl Hcfg) HclA HclB
              HnbA HnbB eq_refl eq_refl) as (H1 & _ & _ & H4 & _).
  assert (Hcfg' : getAvailableAccounts stBA = ["B"; "A"]) by reflexivity.
  assert (HclA' : exchangeClients stBA !! "A" = Some (BinanceClient FUTURES "kA" "sA" None))
    by (vm_compute; reflexivity).
  assert (HclB' : exchangeClients stBA !! "B"
                  = Some (BinanceClient PORTFOLIO_MARGIN "kB" "sB" None))
    by (vm_compute; reflexivity).
  assert (HnbA' : forall b, backoffTimes stBA !! "A" = Some b -> b <= t_check (obsAB "A"))
    by (apply gt_opt_false_le; vm_compute; reflexivity).
  assert (HnbB' : forall b, backoffTimes stBA !! "B" = Some b -> b <= t_check (obsAB "B"))
    by (apply gt_opt_false_le; vm_compute; reflexivity).
  destruct (pass_isolation stBA obsAB "A" "B" _ _ snapA Hne (or_intror Hcfg') HclA' HclB'
              HnbA' HnbB' eq_refl eq_refl) as (H1' & _ & _ & H4' & _).
  split; [exact H1|]. split; [rewrite H4; vm_compute; reflexivity|].
  split; [exact H1'|]. rewrite H4'. vm_compute. reflexivity.
Defined.

(* ------------------------------------------------------------------ *)
(** ** Health report *)

(** C4 (counterexample): at 1006 account "A" is reported healthy although
    its backoff runs until 31005. *)
Lemma health_ignores_backoff_cex :
  option_map healthy (getHealthStatus 1006 stC4 !! "A") = Some true /\
  option_map inBackoff (getHealthStatus 1006 stC4 !! "A") = Some true /\
  backoffTimes stC4 !! "A" = Some 31005.
Proof. vm_compute. repeat split. Qed.

(** C4 (amended): [getHealthStatus(now)] has an entry exactly for the
    accounts with a stored client; [healthy] is [true] iff the last fetch
    time is positive and less than 60000 ms before [now], whatever the
    backoff; [inBackoff] separately reports whether the backoff time is
    later than [now]. *)
Theorem health_reports_recency (st : St) (now : Z) (a : string) :
  getHealthStatus now st !! a = (fun _ => healthOf now st a) <$> exchangeClients st !! a /\
  (healthy (healthOf now st a) = true <->
     0 < or0 (lastFetchTimes st !! a) /\ now - or0 (lastFetchTimes st !! a) < 60000) /\
  (inBackoff (healthOf now st a) = true <->
     exists b, backoffTimes st !! a = Some b /\ now < b).
Proof.
  split; [|split].
  - unfold getHealthStatus. rewrite map_lookup_imap.
    destruct (exchangeClients st !! a); reflexivity.
  - unfold healthOf; simpl. rewrite andb_true_iff, !bool_decide_eq_true. tauto.
  - unfold healthOf; simpl. destruct (backoffTimes st !! a) as [b|]; simpl.
    + rewrite bool_decide_eq_true. split; [eauto|]. intros (b' & Hb & Hlt).
      injection Hb as ->. exact Hlt.
    + split; [discriminate|]. intros (b' & Hb & _). discriminate.
Qed.

(* ------------------------------------------------------------------ *)
(** ** Registration and selection *)

(** C5 (code_bug): a second [POST /accounts] for the already registered
    "NEW" is accepted and replaces its connector client. *)
Lemma duplicate_registration_overwrites :
  (postAccounts (bodyNew "k1") true stAB).2 = AddedOk "NEW" /\
  exchangeClients stNew1 !! "NEW" = Some (BinanceClient FUTURES "k1" "sN" None) /\
  (postAccounts (bodyNew "k2") true stNew1).2 = AddedOk "NEW" /\
  exchangeClients (postAccounts (bodyNew "k2") true stNew1).1 !! "NEW"
    = Some (BinanceClient FUTURES "k2" "sN" None).
Proof. vm_compute. repeat split. Qed.

(** The duplicate check does refuse a name of the static configuration. *)
Lemma post_configured_name_refused (ok : bool) :
  postAccounts (mkPostBody (Some "A") (Some "bybit") (Some "unified") (Some "k")
                  (Some "s") None) ok stAB
  = (stAB, Status400 "Account with this name already exists").
Proof. reflexivity. Qed.

(** C7 (counterexample): the registered account "NEW" cannot be
    selected, while the configured account "A", whose initialisation
    failed, can. *)
Lemma select_not_by_registration_cex :
  is_Some (exchangeClients stNew1 !! "NEW") /\
  setCurrentAccount "NEW" stNew1 = Throw "Invalid account: NEW" /\
  exchangeClients stAdown !! "A" = None /\
  option_map (fun s => currentAccount (cachedData s))
    (match setCurrentAccount "A" stAdown with Ret s => Some s | Throw _ => None end)
  = Some "A".
Proof. vm_compute. repeat split. eexists. reflexivity. Qed.

Lemma initializeAll_config inits (l : list AccountConfig) st :
  config_accounts (fold_left (fun s c =>
      match initializeAccount c (inits (name c)) "initialize failed" s with
      | Ret s' => s'
      | Throw _ => s
      end) l st) = config_accounts st.
Proof.
  revert st. induction l as [|c l IH]; intros st; simpl; auto.
  rewrite IH. unfold initializeAccount.
  destruct (makeClient c); [destruct (inits (name c))|]; reflexivity.
Qed.

Lemma post_available body ok st :
  availableAccounts (cachedData (postAccounts body ok st).1)
  = availableAccounts (cachedData st).
Proof.
  unfold postAccounts. destruct (_ || _); simpl; auto.
  destruct (getAccountConfig _ _); simpl; auto.
  unfold initializeAccount. destruct (makeClient _); simpl; auto.
  destruct ok; reflexivity.
Qed.

Lemma runMany_available steps st :
  availableAccounts (cachedData (runMany steps st)) = availableAccounts (cachedData st).
Proof.
  revert st. induction steps as [|[b ob] l IH]; intros st; simpl; auto.
  rewrite IH. apply step_available.
Qed.

(** C7 (amended): [setCurrentAccount(name)] throws "Invalid account"
    iff [name] is not in [cachedData.availableAccounts]; otherwise the
    selection becomes [name] and nothing else changes.  That list is the
    names of the static configuration, recorded by [startDataFetcher], and
    neither fetch passes nor [POST /accounts] change it. *)
Theorem setCurrentAccount_configured (st : St) (n : string) :
  match setCurrentAccount n st with
  | Throw m => (n ∉ availableAccounts (cachedData st)) /\
               m = ("Invalid account: " ++ n)%string
  | Ret st' => n ∈ availableAccounts (cachedData st) /\
               currentAccount (cachedData st') = n /\
               st' = mkSt (config_accounts st) (exchangeClients st) (lastFetchTimes st)
                       (errorCounts st) (backoffTimes st)
                       (mkCombinedData (accounts (cachedData st)) n
                          (availableAccounts (cachedData st))
                          (accountConfigs (cachedData st)))
                       (connectorCalls st)
  end /\
  (forall (inits : string -> bool) (cfg : list AccountConfig),
     availableAccounts (cachedData (startDataFetcher_setup inits (initialState cfg)))
     = map name cfg) /\
  (forall (body : PostBody) (ok : bool),
     availableAccounts (cachedData (postAccounts body ok st).1)
                   = availableAccounts (cachedData st)) /\
  (forall (steps : list (string * Obs)),
     availableAccounts (cachedData (runMany steps st))
                 = availableAccounts (cachedData st)).
Proof.
  split; [|split; [|split]].
  - unfold setCurrentAccount. destruct (bool_decide _) eqn:Hd.
    + apply bool_decide_eq_true in Hd. auto.
    + apply bool_decide_eq_false in Hd. auto.
  - intros inits cfg. unfold startDataFetcher_setup, initializeAllAccounts, getAvailableAccounts.
    cbn [cachedData availableAccounts]. rewrite initializeAll_config. reflexivity.
  - intros body ok. apply post_available.
  - intros steps. apply runMany_available.
Qed.


(* ------------------------------------------------------------------ *)
(** ** Facts about the JSON round trip *)

Module JsHeapFacts.
Import JsHeap.
Local Open Scope N_scope.

Lemma frame_refl h : frame h h.
Proof. unfold frame. repeat split; auto; lia. Qed.

Lemma frame_trans h1 h2 h3 : frame h1 h2 -> frame h2 h3 -> frame h1 h3.
Proof.
  intros (A1 & B1 & C1) (A2 & B2 & C2). split; [lia|split].
  - intros l Hl. rewrite B2 by lia. auto.
  - intros l Hl. rewrite C2 by lia. apply C1. lia.
Qed.

Lemma frame_node nd h : frame h (alloc_node nd h).1.
Proof.
  unfold frame, alloc_node; simpl. split; [lia|split].
  - intros l Hl. apply lookup_insert_ne. lia.
  - intros l Hl. apply lookup_insert_ne. lia.
Qed.

Lemma alloc_frame :
  (forall t h, frame h (alloc t h).1 /\
     forall l, (alloc t h).2 = JRef l -> (next h <= l < next (alloc t h).1)) /\
  (forall ps h, frame h (alloc_props ps h).1) /\
  (forall ts h, frame h (alloc_list ts h).1).
Proof.
  apply (json_all
    (fun t => forall h, frame h (alloc t h).1 /\
       forall l, (alloc t h).2 = JRef l -> (next h <= l < next (alloc t h).1))
    (fun ps => forall h, frame h (alloc_props ps h).1)
    (fun ts => forall h, frame h (alloc_list ts h).1));
    simpl; intros;
    try (split; [apply frame_refl | discriminate]).
  - destruct (alloc_props ps h) as [h1 vs] eqn:E. specialize (H h). rewrite E in H.
    split.
    + eapply frame_trans; [exact H | apply frame_node].
    + simpl. intros l [=<-]. destruct H as (A & _). simpl in A. lia.
  - destruct (alloc_list ts h) as [h1 vs] eqn:E. specialize (H h). rewrite E in H.
    split.
    + eapply frame_trans; [exact H | apply frame_node].
    + simpl. intros l [=<-]. destruct H as (A & _). simpl in A. lia.
  - apply frame_refl.
  - destruct (alloc t h) as [h1 v] eqn:E1. specialize (H h). rewrite E1 in H.
    destruct (alloc_props rest h1) as [h2 vs] eqn:E2. specialize (H0 h1).
    rewrite E2 in H0. simpl. eapply frame_trans; [apply H | exact H0].
  - apply frame_refl.
  - destruct (alloc t h) as [h1 v] eqn:E1. specialize (H h). rewrite E1 in H.
    destruct (alloc_list rest h1) as [h2 vs] eqn:E2. specialize (H0 h1).
    rewrite E2 in H0. simpl. eapply frame_trans; [apply H | exact H0].
Qed.
Lemma alloc_props_frame ps h : frame h (alloc_props ps h).1.
Proof. apply alloc_frame. Qed.

Lemma alloc_list_frame ts h : frame h (alloc_list ts h).1.
Proof. apply alloc_frame. Qed.

Lemma alloc_json_frame t h : frame h (alloc t h).1.
Proof. apply alloc_frame. Qed.

(** [JSON.parse] then [JSON.stringify] gives the text back, reading any
    memory that agrees with the parsed one on the fresh locations. *)
Lemma alloc_ser :
  (forall t h n m2, (depth t <= n)%nat ->
     agree (next h) (next (alloc t h).1) m2 (mem (alloc t h).1) ->
     ser n m2 (alloc t h).2 = Some t) /\
  (forall ps h n m2, (depth_props ps <= n)%nat ->
     agree (next h) (next (alloc_props ps h).1) m2 (mem (alloc_props ps h).1) ->
     ser_props (ser n m2) (alloc_props ps h).2 = Some ps) /\
  (forall ts h n m2, (depth_list ts <= n)%nat ->
     agree (next h) (next (alloc_list ts h).1) m2 (mem (alloc_list ts h).1) ->
     ser_list (ser n m2) (alloc_list ts h).2 = Some ts).
Proof.
  apply (json_all
    (fun t => forall h n m2, (depth t <= n)%nat ->
       agree (next h) (next (alloc t h).1) m2 (mem (alloc t h).1) ->
       ser n m2 (alloc t h).2 = Some t)
    (fun ps => forall h n m2, (depth_props ps <= n)%nat ->
       agree (next h) (next (alloc_props ps h).1) m2 (mem (alloc_props ps h).1) ->
       ser_props (ser n m2) (alloc_props ps h).2 = Some ps)
    (fun ts => forall h n m2, (depth_list ts <= n)%nat ->
       agree (next h) (next (alloc_list ts h).1) m2 (mem (alloc_list ts h).1) ->
       ser_list (ser n m2) (alloc_list ts h).2 = Some ts));
    simpl; try (intros; reflexivity);
    try (intros until n; intros; destruct n; reflexivity).
  - intros ps H h n m2 H0 H1. pose proof (alloc_props_frame ps h) as Hf. specialize (H h).
    destruct (alloc_props ps h) as [h1 vs] eqn:E. rewrite ?E in *. simpl in *.
    destruct Hf as (Hle & _ & _).
    destruct n as [|n']; [lia|]. simpl.
    rewrite H1 by lia. simpl. rewrite lookup_insert_eq.
    rewrite (H n' m2) by (try lia; intros l Hl;
      rewrite H1 by lia; simpl; apply lookup_insert_ne; lia).
    reflexivity.
  - intros ts H h n m2 H0 H1. pose proof (alloc_list_frame ts h) as Hf. specialize (H h).
    destruct (alloc_list ts h) as [h1 vs] eqn:E. rewrite ?E in *. simpl in *.
    destruct Hf as (Hle & _ & _).
    destruct n as [|n']; [lia|]. simpl.
    rewrite H1 by lia. simpl. rewrite lookup_insert_eq.
    rewrite (H n' m2) by (try lia; intros l Hl;
      rewrite H1 by lia; simpl; apply lookup_insert_ne; lia).
    reflexivity.
  - intros k t H rest H0 h n m2 Hd H1. pose proof (alloc_json_frame t h) as Hf1. specialize (H h).
    destruct (alloc t h) as [h1 v] eqn:E1.
    pose proof (alloc_props_frame rest h1) as Hf2.
    specialize (H0 h1). destruct (alloc_props rest h1) as [h2 vs] eqn:E2. rewrite ?E1, ?E2 in *. simpl in *.
    destruct Hf1 as (Hle1 & _ & _). destruct Hf2 as (Hle2 & Hlo2 & _).
    rewrite (H n m2) by (try lia; intros l Hl;
      rewrite H1 by lia; apply Hlo2; lia).
    rewrite (H0 n m2) by (try lia; intros l Hl;
      apply H1; lia).
    reflexivity.
  - intros t H rest H0 h n m2 Hd H1. pose proof (alloc_json_frame t h) as Hf1. specialize (H h).
    destruct (alloc t h) as [h1 v] eqn:E1.
    pose proof (alloc_list_frame rest h1) as Hf2.
    specialize (H0 h1). destruct (alloc_list rest h1) as [h2 vs] eqn:E2. rewrite ?E1, ?E2 in *. simpl in *.
    destruct Hf1 as (Hle1 & _ & _). destruct Hf2 as (Hle2 & Hlo2 & _).
    rewrite (H n m2) by (try lia; intros l Hl;
      rewrite H1 by lia; apply Hlo2; lia).
    rewrite (H0 n m2) by (try lia; intros l Hl;
      apply H1; lia).
    reflexivity.
Qed.
Lemma ser_prim_num n m z : ser n m (JNum z) = Some (JSNum z).
Proof. destruct n; reflexivity. Qed.

Lemma ser_props_depth (f : jval -> option json) k ps tp :
  (forall x t, f x = Some t -> (depth t <= k)%nat) ->
  ser_props f ps = Some tp -> (depth_props tp <= k)%nat.
Proof.
  intros Hf. revert tp. induction ps as [|[key x] ps IH]; intros tp Hs; simpl in Hs.
  - injection Hs as <-. simpl. lia.
  - destruct (f x) as [t|] eqn:E1; [|discriminate].
    destruct (ser_props f ps) as [ts|] eqn:E2; [|discriminate].
    injection Hs as <-. simpl. apply Hf in E1. specialize (IH ts eq_refl). lia.
Qed.

Lemma ser_list_depth (f : jval -> option json) k xs tl :
  (forall x t, f x = Some t -> (depth t <= k)%nat) ->
  ser_list f xs = Some tl -> (depth_list tl <= k)%nat.
Proof.
  intros Hf. revert tl. induction xs as [|x xs IH]; intros tl Hs; simpl in Hs.
  - injection Hs as <-. simpl. lia.
  - destruct (f x) as [t|] eqn:E1; [|discriminate].
    destruct (ser_list f xs) as [ts|] eqn:E2; [|discriminate].
    injection Hs as <-. simpl. apply Hf in E1. specialize (IH ts eq_refl). lia.
Qed.

(** [JSON.stringify] with fuel [n] only produces trees of depth [<= n]. *)
Lemma ser_depth n : forall m v t, ser n m v = Some t -> (depth t <= n)%nat.
Proof.
  induction n as [|n IH]; intros m v t Hs.
  - destruct v; simpl in Hs; try discriminate; injection Hs as <-; simpl; lia.
  - destruct v as [| | | |l]; simpl in Hs;
      try (injection Hs as <-; simpl; lia).
    destruct (m !! l) as [[ps|xs]|]; [| |discriminate].
    + destruct (ser_props (ser n m) ps) as [tp|] eqn:E; [|discriminate].
      injection Hs as <-. simpl.
      pose proof (ser_props_depth (ser n m) n ps tp (IH m) E). lia.
    + destruct (ser_list (ser n m) xs) as [tl|] eqn:E; [|discriminate].
      injection Hs as <-. simpl.
      pose proof (ser_list_depth (ser n m) n xs tl (IH m) E). lia.
Qed.

Lemma ser_props_ext (f g : jval -> option json) ps tp :
  (forall x t, f x = Some t -> g x = Some t) ->
  ser_props f ps = Some tp -> ser_props g ps = Some tp.
Proof.
  intros Hfg. revert tp. induction ps as [|[key x] ps IH]; intros tp Hs; simpl in *; auto.
  destruct (f x) as [t|] eqn:E1; [|discriminate].
  destruct (ser_props f ps) as [ts|] eqn:E2; [|discriminate].
  rewrite (Hfg x t E1), (IH ts eq_refl). exact Hs.
Qed.

Lemma ser_list_ext (f g : jval -> option json) xs tl :
  (forall x t, f x = Some t -> g x = Some t) ->
  ser_list f xs = Some tl -> ser_list g xs = Some tl.
Proof.
  intros Hfg. revert tl. induction xs as [|x xs IH]; intros tl Hs; simpl in *; auto.
  destruct (f x) as [t|] eqn:E1; [|discriminate].
  destruct (ser_list f xs) as [ts|] eqn:E2; [|discriminate].
  rewrite (Hfg x t E1), (IH ts eq_refl). exact Hs.
Qed.

(** [JSON.stringify] reads only allocated objects: it gives the same
    text in any memory that keeps them. *)
Lemma ser_ext n : forall m m2 v t,
  ser n m v = Some t -> (forall l x, m !! l = Some x -> m2 !! l = Some x) ->
  ser n m2 v = Some t.
Proof.
  induction n as [|n IH]; intros m m2 v t Hs Hm.
  - destruct v; exact Hs.
  - destruct v as [| | | |l]; try exact Hs. simpl in *.
    destruct (m !! l) as [nd|] eqn:El; [|discriminate]. rewrite (Hm l nd El).
    destruct nd as [ps|xs].
    + destruct (ser_props (ser n m) ps) as [tp|] eqn:E; [|discriminate].
      rewrite (ser_props_ext (ser n m) (ser n m2) ps tp) by eauto. exact Hs.
    + destruct (ser_list (ser n m) xs) as [tl|] eqn:E; [|discriminate].
      rewrite (ser_list_ext (ser n m) (ser n m2) xs tl) by eauto. exact Hs.
Qed.

Lemma ser_props_set (f : jval -> option json) k v tv ps tp :
  f v = Some tv -> ser_props f ps = Some tp ->
  ser_props f (set_prop k v ps) = Some (jset_prop k tv tp).
Proof.
  intros Hv. revert tp. induction ps as [|[k' x] ps IH]; intros tp Hs; simpl in *.
  - injection Hs as <-. rewrite Hv. reflexivity.
  - destruct (f x) as [t|] eqn:E1; [|discriminate].
    destruct (ser_props f ps) as [ts|] eqn:E2; [|discriminate].
    injection Hs as <-. simpl. destruct (String.eqb k k').
    + simpl. rewrite Hv, E2. reflexivity.
    + simpl. rewrite E1, (IH ts eq_refl). reflexivity.
Qed.

Lemma alloc_wf t h : wf h -> wf (alloc t h).1.
Proof.
  intros Hwf l x Hl. destruct (alloc_json_frame t h) as (Hle & _ & Hhi).
  destruct (N.lt_ge_cases l (next (alloc t h).1)) as [Hlt|Hge]; [exact Hlt|].
  rewrite Hhi in Hl by exact Hge. apply Hwf in Hl. lia.
Qed.

(** What one call of [getCachedData] returns: the cache's text was
    readable, the heap only grew, the result is a fresh reference, and its
    text, read in any memory that agrees on the fresh locations, is the
    cache's text with [lastUpdate] set. *)
Lemma get_result fuel now h root h' r :
  getCachedData fuel now h root = Some (h', r) ->
  exists t, ser fuel (mem h) root = Some t /\ frame h h' /\
    (exists l, r = JRef l /\ next h <= l < next h') /\
    forall m2, agree (next h) (next h') m2 (mem h') ->
      ser fuel m2 r = snap_of now (Some t).
Proof.
  unfold getCachedData.
  destruct (ser fuel (mem h) root) as [t|] eqn:Es; [|discriminate].
  pose proof (ser_depth fuel (mem h) root t Es) as Hd.
  destruct t as [| | | |ps|ts]; simpl; try discriminate.
  - pose proof (alloc_props_frame ps h) as Hf.
    destruct (alloc_props ps h) as [h1 vs] eqn:E. simpl in Hf.
    simpl. rewrite lookup_insert_eq. intros [= <- <-].
    destruct Hf as (Hle & Hlo & Hhi).
    exists (JSObj ps). split; [reflexivity|]. split; [|split].
    + unfold frame; simpl. split; [lia|split]; intros l Hl;
        rewrite !lookup_insert_ne by lia; [apply Hlo | apply Hhi]; lia.
    + exists (next h1). simpl. split; [reflexivity|lia].
    + intros m2 Hag. simpl in Hag. simpl in Hd.
      destruct fuel as [|n']; [lia|]. simpl.
      rewrite Hag by lia. rewrite lookup_insert_eq.
      assert (Hps : ser_props (ser n' m2) vs = Some ps).
      { pose proof (proj1 (proj2 alloc_ser) ps h n' m2) as HA.
        rewrite E in HA. apply HA; [lia|]. intros l Hl. simpl in Hl.
        rewrite Hag by lia. rewrite !lookup_insert_ne by lia. reflexivity. }
      rewrite (ser_props_set (ser n' m2) "lastUpdate" (JNum now) (JSNum now) vs ps
                 (ser_prim_num n' m2 now) Hps).
      reflexivity.
  - pose proof (alloc_list_frame ts h) as Hf.
    destruct (alloc_list ts h) as [h1 vs] eqn:E. simpl in Hf.
    simpl. rewrite lookup_insert_eq. intros [= <- <-].
    destruct Hf as (Hle & Hlo & Hhi).
    exists (JSArr ts). split; [reflexivity|]. split; [|split].
    + unfold frame; simpl. split; [lia|split]; intros l Hl;
        rewrite !lookup_insert_ne by lia; [apply Hlo | apply Hhi]; lia.
    + exists (next h1). simpl. split; [reflexivity|lia].
    + intros m2 Hag. simpl in Hag. simpl in Hd.
      destruct fuel as [|n']; [lia|]. simpl.
      rewrite Hag by lia. rewrite lookup_insert_eq.
      assert (Hts : ser_list (ser n' m2) vs = Some ts).
      { pose proof (proj2 (proj2 alloc_ser) ts h n' m2) as HA.
        rewrite E in HA. apply HA; [lia|]. intros l Hl. simpl in Hl.
        rewrite Hag by lia. rewrite !lookup_insert_ne by lia. reflexivity. }
      rewrite Hts. reflexivity.
Qed.

(** The snapshot's text depends only on the cache's text and the time. *)
Lemma snapshot_content fuel now h root :
  snapshotJson fuel now h root = snap_of now (ser fuel (mem h) root).
Proof.
  unfold snapshotJson.
  destruct (getCachedData fuel now h root) as [[h' r]|] eqn:E.
  - destruct (get_result fuel now h root h' r E) as (t & Es & _ & _ & Hr).
    rewrite Es. apply Hr. intros l _. reflexivity.
  - unfold getCachedData in E.
    destruct (ser fuel (mem h) root) as [t|]; [|reflexivity].
    destruct t as [| | | |ps|ts]; simpl in *; try reflexivity.
    + destruct (alloc_props ps h) as [h1 vs]. simpl in E.
      rewrite lookup_insert_eq in E. discriminate.
    + destruct (alloc_list ts h) as [h1 vs]. simpl in E.
      rewrite lookup_insert_eq in E. discriminate.
Qed.
Lemma closed_empty lo m : closed lo lo m.
Proof. intros l nd l1 Hl. lia. Qed.

(** Fresh allocations compose: the two ranges together are closed. *)
Lemma closed_app h h1 h2 :
  frame h1 h2 -> next h <= next h1 ->
  closed (next h) (next h1) (mem h1) -> closed (next h1) (next h2) (mem h2) ->
  closed (next h) (next h2) (mem h2).
Proof.
  intros (Hle & Hlo & _) Hle0 C1 C2 l nd l1 Hl Hnd Hr.
  destruct (N.lt_ge_cases l (next h1)) as [Hlt|Hge].
  - rewrite Hlo in Hnd by exact Hlt. pose proof (C1 l nd l1 ltac:(lia) Hnd Hr). lia.
  - pose proof (C2 l nd l1 ltac:(lia) Hnd Hr). lia.
Qed.

(** Storing a node that refers only to the range at the next location
    keeps the extended range closed. *)
Lemma closed_node lo nd h :
  lo <= next h -> closed lo (next h) (mem h) ->
  (forall l1, node_ref nd l1 -> lo <= l1 < next h) ->
  closed lo (next (alloc_node nd h).1) (mem (alloc_node nd h).1).
Proof.
  intros Hle C Hnd l nd' l1 Hl. simpl in *.
  destruct (decide (l = next h)) as [->|Hne].
  - rewrite lookup_insert_eq. intros [= <-] Hr. pose proof (Hnd l1 Hr). lia.
  - rewrite lookup_insert_ne by congruence. intros Hm Hr.
    pose proof (C l nd' l1 ltac:(lia) Hm Hr). lia.
Qed.

(** [JSON.parse] allocates a graph whose objects refer only to each
    other, and whose values refer only to it. *)
Lemma alloc_closed :
  (forall t h, closed (next h) (next (alloc t h).1) (mem (alloc t h).1)) /\
  (forall ps h, closed (next h) (next (alloc_props ps h).1) (mem (alloc_props ps h).1) /\
     forall k l1, (k, JRef l1) ∈ (alloc_props ps h).2 ->
       next h <= l1 < next (alloc_props ps h).1) /\
  (forall ts h, closed (next h) (next (alloc_list ts h).1) (mem (alloc_list ts h).1) /\
     forall l1, JRef l1 ∈ (alloc_list ts h).2 ->
       next h <= l1 < next (alloc_list ts h).1).
Proof.
  apply (json_all
    (fun t => forall h, closed (next h) (next (alloc t h).1) (mem (alloc t h).1))
    (fun ps => forall h, closed (next h) (next (alloc_props ps h).1) (mem (alloc_props ps h).1) /\
       forall k l1, (k, JRef l1) ∈ (alloc_props ps h).2 ->
         next h <= l1 < next (alloc_props ps h).1)
    (fun ts => forall h, closed (next h) (next (alloc_list ts h).1) (mem (alloc_list ts h).1) /\
       forall l1, JRef l1 ∈ (alloc_list ts h).2 ->
         next h <= l1 < next (alloc_list ts h).1));
    simpl; try (intros; apply closed_empty).
  - intros ps H h. pose proof (alloc_props_frame ps h) as (Hle & _ & _). specialize (H h).
    destruct (alloc_props ps h) as [h1 vs]. simpl in *. destruct H as [C Hvs].
    apply closed_node; [exact Hle|exact C|]. intros l1 [k Hk]. eauto.
  - intros ts H h. pose proof (alloc_list_frame ts h) as (Hle & _ & _). specialize (H h).
    destruct (alloc_list ts h) as [h1 vs]. simpl in *. destruct H as [C Hvs].
    apply closed_node; [exact Hle|exact C|]. intros l1 Hk. eauto.
  - intros h. split; [apply closed_empty|]. intros k l1 Hin. by apply elem_of_nil in Hin.
  - intros k t H rest H0 h.
    pose proof (alloc_frame) as (AF & _ & _).
    destruct (AF t h) as [Hf1 Hv]. specialize (H h).
    destruct (alloc t h) as [h1 v] eqn:E1. simpl in *.
    pose proof (alloc_props_frame rest h1) as Hf2. specialize (H0 h1).
    destruct (alloc_props rest h1) as [h2 vs]. simpl in *. destruct H0 as [C2 Hvs].
    destruct Hf1 as (Hle1 & _ & _). pose proof Hf2 as (Hle2 & _ & _).
    split; [exact (closed_app h h1 h2 Hf2 Hle1 H C2)|].
    intros k' l1 Hin. apply elem_of_cons in Hin as [[= -> <-]|Hin].
    + specialize (Hv l1 eq_refl). lia.
    + specialize (Hvs k' l1 Hin). lia.
  - intros h. split; [apply closed_empty|]. intros l1 Hin. by apply elem_of_nil in Hin.
  - intros t H rest H0 h.
    pose proof (alloc_frame) as (AF & _ & _).
    destruct (AF t h) as [Hf1 Hv]. specialize (H h).
    destruct (alloc t h) as [h1 v] eqn:E1. simpl in *.
    pose proof (alloc_list_frame rest h1) as Hf2. specialize (H0 h1).
    destruct (alloc_list rest h1) as [h2 vs]. simpl in *. destruct H0 as [C2 Hvs].
    destruct Hf1 as (Hle1 & _ & _). pose proof Hf2 as (Hle2 & _ & _).
    split; [exact (closed_app h h1 h2 Hf2 Hle1 H C2)|].
    intros l1 Hin. apply elem_of_cons in Hin as [<-|Hin].
    + specialize (Hv l1 eq_refl). lia.
    + specialize (Hvs l1 Hin). lia.
Qed.

Lemma set_prop_elem k v ps x : x ∈ set_prop k v ps -> x = (k, v) \/ x ∈ ps.
Proof.
  induction ps as [|[k' v'] ps IH]; simpl.
  - intros Hx. apply list_elem_of_singleton in Hx. auto.
  - destruct (String.eqb k k').
    + intros Hx. apply elem_of_cons in Hx as [->|Hx]; [auto|right; by apply elem_of_cons; right].
    + intros Hx. apply elem_of_cons in Hx as [->|Hx]; [right; apply elem_of_cons; auto|].
      destruct (IH Hx) as [->|Hin]; [auto|right; by apply elem_of_cons; right].
Qed.

(** Everything reachable from a location of a closed range stays in it. *)
Lemma reach_closed lo hi m l l2 :
  closed lo hi m -> lo <= l < hi -> reach m l l2 -> lo <= l2 < hi.
Proof.
  intros C Hl Hr. induction Hr as [l|l nd l1 l2 Hm Hn Hr IH]; [exact Hl|].
  apply IH. exact (C l nd l1 Hl Hm Hn).
Qed.

(** The copy [getCachedData] returns is a graph of fresh objects that
    refer only to each other. *)
Lemma get_closed fuel now h root h' r :
  getCachedData fuel now h root = Some (h', r) ->
  exists l, r = JRef l /\ next h <= l < next h' /\ closed (next h) (next h') (mem h').
Proof.
  unfold getCachedData.
  destruct (ser fuel (mem h) root) as [t|]; [|discriminate].
  pose proof (alloc_frame) as (AF & _ & _). destruct (AF t h) as [_ Hv].
  pose proof (proj1 alloc_closed t h) as C.
  destruct (alloc t h) as [h1 data]. simpl in *.
  destruct data as [| | | |l]; try discriminate.
  specialize (Hv l eq_refl).
  destruct (mem h1 !! l) as [[ps|xs]|] eqn:El; try discriminate; intros [= <- <-].
  - exists l. simpl. split; [reflexivity|split; [exact Hv|]].
    intros l0 nd l1 Hl0. destruct (decide (l0 = l)) as [->|Hne].
    + rewrite lookup_insert_eq. intros [= <-] [k Hk].
      apply set_prop_elem in Hk as [[=]|Hk].
      exact (C l (JObj ps) l1 Hl0 El (ex_intro _ k Hk)).
    + rewrite lookup_insert_ne by congruence. apply C. exact Hl0.
  - exists l. split; [reflexivity|split; [exact Hv|exact C]].
Qed.

(** A property path read in [m] from [v] ends at a location reachable
    from [v]. *)
Lemma get_path_reach m ks : forall v l2,
  get_path m v ks = JRef l2 -> exists l, v = JRef l /\ reach m l l2.
Proof.
  induction ks as [|k ks IH]; simpl; intros v l2 Hp.
  - exists l2. split; [exact Hp|constructor].
  - destruct (IH _ _ Hp) as (l1 & Hl1 & Hr).
    destruct v as [| | | |l]; simpl in Hl1; try discriminate.
    destruct (m !! l) as [[ps|xs]|] eqn:Em; try discriminate.
    exists l. split; [reflexivity|]. apply (reach_step m l (JObj ps) l1 l2 Em); [|exact Hr].
    clear -Hl1. induction ps as [|[k' v'] ps IHp]; simpl in Hl1; [discriminate|].
    destruct (String.eqb k k').
    + subst v'. exists k'. apply elem_of_cons. auto.
    + destruct (IHp Hl1) as [k0 Hk0]. exists k0. apply elem_of_cons. auto.
Qed.

(** C9: [getCachedData] returns an independent deep copy. The read leaves
    every old location as it was; the result is a fresh reference whose
    text is the cache's text (with [lastUpdate]); every object reachable
    from the result, at any depth, is fresh (no object of the cache or of
    anything allocated before); and whatever a consumer does with the
    fresh locations (any memory [h2] that agrees with the one after the
    read on the old locations: in particular any mutation of any part of
    the returned structure) changes neither the cache's text nor the text
    of any later snapshot. *)
Theorem getCachedData_independent_copy fuel now h root h' r
  (Hwf : wf h) (Hget : getCachedData fuel now h root = Some (h', r)) :
  (forall l, l < next h -> mem h' !! l = mem h !! l) /\
  (exists l, r = JRef l /\ next h <= l /\ mem h !! l = None /\
     forall l2, reach (mem h') l l2 -> next h <= l2 /\ mem h !! l2 = None) /\
  ser fuel (mem h') r = snap_of now (ser fuel (mem h) root) /\
  forall h2, (forall l, l < next h -> mem h2 !! l = mem h' !! l) ->
    ser fuel (mem h2) root = ser fuel (mem h) root /\
    forall now', snapshotJson fuel now' h2 root = snapshotJson fuel now' h root.
Proof.
  destruct (get_result fuel now h root h' r Hget)
    as (t & Es & (Hle & Hlo & Hhi) & (l & -> & Hl1 & Hl2) & Hr).
  assert (Hold : forall h2, (forall l, l < next h -> mem h2 !! l = mem h' !! l) ->
            ser fuel (mem h2) root = Some t).
  { intros h2 Hh2. apply (ser_ext fuel (mem h)); [exact Es|].
    intros l' x Hx. pose proof (Hwf l' x Hx) as Hlt.
    rewrite Hh2 by exact Hlt. rewrite Hlo by exact Hlt. exact Hx. }
  assert (Hfresh : forall l', next h <= l' -> mem h !! l' = None).
  { intros l' Hl'. destruct (mem h !! l') as [x|] eqn:Ex; [|reflexivity].
    apply Hwf in Ex. lia. }
  split; [exact Hlo|]. split; [|split].
  - destruct (get_closed fuel now h root h' (JRef l) Hget) as (l0 & [= <-] & Hl0 & C).
    exists l. split; [reflexivity|split; [exact Hl1|split; [by apply Hfresh|]]].
    intros l2 Hreach. pose proof (reach_closed _ _ _ _ _ C Hl0 Hreach) as Hin2.
    split; [lia|]. apply Hfresh. lia.
  - rewrite Es. apply Hr. intros l' _. reflexivity.
  - intros h2 Hh2. pose proof (Hold h2 Hh2) as E2. rewrite E2, Es.
    split; [reflexivity|]. intros now'.
    rewrite !snapshot_content, E2, Es. reflexivity.
Qed.

Lemma getCachedData_independent_copy_witness :
  wf h0 /\ getCachedData 3 7 h0 root0 = Some (copyHeap, copyRoot) /\
  reach (mem copyHeap) copyLoc copyALoc /\ next h0 <= copyALoc /\
  ser 3 (mem hmut) copyRoot <> ser 3 (mem copyHeap) copyRoot /\
  ser 3 (mem hmut) root0 = Some cacheJson /\
  snapshotJson 3 8 hmut root0 = snapshotJson 3 8 h0 root0.
Proof.
  assert (Hwf : wf h0).
  { apply alloc_wf. intros l x Hl. simpl in Hl. rewrite lookup_empty in Hl. discriminate. }
  assert (Hget : getCachedData 3 7 h0 root0 = Some (copyHeap, copyRoot)).
  { vm_compute. reflexivity. }
  assert (Hn : next h0 = 4) by (vm_compute; reflexivity).
  assert (Hc : copyALoc = 4) by (vm_compute; reflexivity).
  assert (Hreach : reach (mem copyHeap) copyLoc copyALoc).
  { destruct (get_path_reach (mem copyHeap) ["accounts"; "A"] copyRoot copyALoc)
      as (l & Hl & Hr); [vm_compute; reflexivity|].
    assert (Hl' : copyLoc = l) by (unfold copyLoc; rewrite Hl; reflexivity).
    rewrite Hl'. exact Hr. }
  assert (Hag : forall l, l < next h0 -> mem hmut !! l = mem copyHeap !! l).
  { intros l Hl. unfold hmut. simpl. rewrite Hn in Hl.
    apply lookup_insert_ne. rewrite Hc. lia. }
  destruct (getCachedData_independent_copy 3 7 h0 root0 copyHeap copyRoot Hwf Hget)
    as (_ & (l & Hl & _ & _ & Hfr) & _ & Hind).
  assert (Hl' : copyLoc = l) by (unfold copyLoc; rewrite Hl; reflexivity).
  rewrite Hl' in Hreach. destruct (Hfr copyALoc Hreach) as [Hfresh _].
  rewrite <- Hl' in Hreach.
  destruct (Hind hmut Hag) as [E1 E2].
  split; [exact Hwf|]. split; [exact Hget|]. split; [exact Hreach|]. split; [exact Hfresh|].
  split; [vm_compute; discriminate|]. split.
  - rewrite E1. vm_compute. reflexivity.
  - apply E2.
Defined.
End JsHeapFacts.

(* ------------------------------------------------------------------ *)
(** ** Registration *)

Lemma makeClient_ok c :
  (exists cl, makeClient c = Ret cl) <-> (exchange c, accountType c) ∈ supportedKinds.
Proof.
  unfold supportedKinds. rewrite list_elem_of_In. split.
  - intros [cl H]. unfold makeClient in H.
    destruct (String.eqb_spec (exchange c) "binance") as [He|He].
    + rewrite He. destruct (String.eqb_spec (accountType c) "futures") as [Ht|Ht].
      * rewrite Ht. simpl. auto.
      * destruct (String.eqb_spec (accountType c) "portfolioMargin") as [Ht'|Ht'];
          [rewrite Ht'; simpl; auto | discriminate].
    + destruct (String.eqb_spec (exchange c) "bybit") as [He'|He']; [|discriminate].
      rewrite He'. destruct (String.eqb_spec (accountType c) "unified") as [Ht|Ht];
        [rewrite Ht; simpl; auto | discriminate].
  - simpl. intros [H|[H|[H|[]]]]; injection H as He Ht;
      unfold makeClient; rewrite <- He, <- Ht; simpl; eauto.
Qed.

Lemma makeClient_creds c cl :
  makeClient c = Ret cl -> clientCreds cl = (apiKey c, apiSecret c, baseUrl c).
Proof.
  unfold makeClient.
  destruct (String.eqb _ _); [destruct (String.eqb _ _); [|destruct (String.eqb _ _)]
                             |destruct (String.eqb _ _); [destruct (String.eqb _ _)|]];
  intros H; try discriminate; injection H as <-; reflexivity.
Qed.

Lemma initializeAccount_ret c ok err st st' :
  initializeAccount c ok err st = Ret st' ->
  exists cl, makeClient c = Ret cl /\ ok = true /\
    st' = mkSt (config_accounts st)
              (<[name c := cl]> (exchangeClients st))
              (<[name c := 0]> (lastFetchTimes st))
              (<[name c := 0]> (errorCounts st))
              (<[name c := 0]> (backoffTimes st))
              (cachedData st) (connectorCalls st).
Proof.
  unfold initializeAccount. destruct (makeClient c) as [cl|m]; [|discriminate].
  destruct ok; [|discriminate]. intros [= <-]. eauto.
Qed.

Lemma initializeAccount_some c ok err st :
  ok = true -> (exchange c, accountType c) ∈ supportedKinds ->
  exists st', initializeAccount c ok err st = Ret st'.
Proof.
  intros -> Hs. apply makeClient_ok in Hs. destruct Hs as [cl Hcl].
  unfold initializeAccount. rewrite Hcl. eauto.
Qed.

Lemma initializeAll_fold_eq inits st :
  initializeAllAccounts inits st = fold_left (initStep inits) (config_accounts st) st.
Proof. reflexivity. Qed.

Lemma initStep_cases inits st c :
  (initStep inits st c = st /\
   ~ (inits (name c) = true /\ (exchange c, accountType c) ∈ supportedKinds)) \/
  (inits (name c) = true /\ (exchange c, accountType c) ∈ supportedKinds /\
   exists cl, makeClient c = Ret cl /\ initStep inits st c =
     mkSt (config_accounts st)
       (<[name c := cl]> (exchangeClients st))
       (<[name c := 0]> (lastFetchTimes st))
       (<[name c := 0]> (errorCounts st))
       (<[name c := 0]> (backoffTimes st))
       (cachedData st) (connectorCalls st)).
Proof.
  unfold initStep. destruct (initializeAccount c _ _ st) as [s'|m] eqn:E.
  - destruct (initializeAccount_ret _ _ _ _ _ E) as (cl & Hcl & Hok & ->).
    right. split; [exact Hok|]. split; [apply makeClient_ok; eauto|]. eauto.
  - left. split; [reflexivity|]. intros [Hok Hs].
    destruct (initializeAccount_some c _ "initialize failed" st Hok Hs) as [s' E'].
    congruence.
Qed.

(** What the fold of [initializeAllAccounts] leaves for one name. *)
Lemma initFold_view inits (l : list AccountConfig) st n :
  (initWitness inits l n ->
   is_Some (exchangeClients (fold_left (initStep inits) l st) !! n) /\
   lastFetchTimes (fold_left (initStep inits) l st) !! n = Some 0 /\
   errorCounts (fold_left (initStep inits) l st) !! n = Some 0 /\
   backoffTimes (fold_left (initStep inits) l st) !! n = Some 0) /\
  (~ initWitness inits l n ->
   acct_view (fold_left (initStep inits) l st) n = acct_view st n) /\
  cachedData (fold_left (initStep inits) l st) = cachedData st /\
  config_accounts (fold_left (initStep inits) l st) = config_accounts st.
Proof.
  revert st. induction l as [|c l IH]; intros st; simpl.
  - split; [|split; [|split]]; auto.
    intros (c & Hc & _). by apply elem_of_nil in Hc.
  - destruct (IH (initStep inits st c)) as (H1 & H2 & H3 & H4).
    assert (Hcd : cachedData (initStep inits st c) = cachedData st /\
                  config_accounts (initStep inits st c) = config_accounts st).
    { destruct (initStep_cases inits st c) as [[-> _]|(_ & _ & cl & _ & ->)]; auto. }
    destruct Hcd as [Hcd Hcf].
    split; [|split; [|split]].
    + intros Hw. destruct (decide (initWitness inits l n)) as [Hl|Hl]; [by apply H1|].
      destruct Hw as (c' & Hc' & Hn & Hi & Hs).
      apply elem_of_cons in Hc' as [->|Hc']; [|destruct Hl; exists c'; auto].
      pose proof (H2 Hl) as Hv. unfold acct_view in Hv.
      injection Hv as V1 V2 V3 V4 _ _. rewrite V1, V2, V3, V4.
      destruct (initStep_cases inits st c) as [[_ Hno]|(_ & _ & cl & _ & ->)].
      * subst n. tauto.
      * simpl. subst n. rewrite !lookup_insert_eq. split; eauto.
    + intros Hw. rewrite H2 by (intros (c' & ? & ?); apply Hw; exists c';
                                 rewrite elem_of_cons; tauto).
      destruct (initStep_cases inits st c) as [[-> _]|(Hi & Hs & cl & _ & ->)];
        [reflexivity|].
      destruct (decide (name c = n)) as [<-|Hne].
      * destruct Hw. exists c. rewrite elem_of_cons. auto.
      * unfold acct_view; simpl. rewrite !lookup_insert_ne by congruence. reflexivity.
    + by rewrite H3.
    + by rewrite H4.
Qed.

(* ------------------------------------------------------------------ *)
(** ** Configuration lookups *)

Lemma fold_configs_lookup (l : list AccountConfig) (m : gmap string AccountConfig) n :
  fold_left (fun m c => <[name c := c]> m) l m !! n =
  match list.last (filter (fun c => name c = n) l) with Some c => Some c | None => m !! n end.
Proof.
  revert m. induction l as [|c l IH]; intros m; cbn [fold_left]; [reflexivity|].
  rewrite IH, filter_cons. destruct (decide (name c = n)) as [<-|Hne].
  - rewrite last_cons. destruct (list.last _); [reflexivity|]. by rewrite lookup_insert_eq.
  - by rewrite lookup_insert_ne.
Qed.

Lemma getAccountByName_head cfg n :
  getAccountByName cfg n = head (filter (fun c => name c = n) cfg).
Proof.
  induction cfg as [|c l IH]; [reflexivity|]. unfold getAccountByName in *.
  cbn [find]. rewrite filter_cons.
  destruct (decide (name c = n)) as [H|H].
  - rewrite bool_decide_true by exact H. reflexivity.
  - rewrite bool_decide_false by exact H. exact IH.
Qed.

Lemma filter_name_nodup (l : list AccountConfig) n :
  NoDup (map name l) -> (length (filter (fun c => name c = n) l) <= 1)%nat.
Proof.
  induction l as [|c l IH]; intros Hnd; [simpl; lia|].
  cbn [map] in Hnd. pose proof (NoDup_cons_1_1 _ _ Hnd) as Hn. apply NoDup_cons_1_2 in Hnd.
  rewrite filter_cons. destruct (decide (name c = n)) as [<-|Hne]; [|by apply IH].
  destruct (filter (fun c' => name c' = name c) l) as [|x xs] eqn:E; [simpl; lia|].
  exfalso. assert (Hx : x ∈ filter (fun c' => name c' = name c) l) by (rewrite E; left).
  apply list_elem_of_filter in Hx as [Hxn Hx]. apply Hn.
  rewrite <- Hxn. apply list_elem_of_In, in_map, list_elem_of_In. exact Hx.
Qed.

Lemma getAllAccountConfigs_lookup st n :
  getAllAccountConfigs st !! n = list.last (filter (fun c => name c = n) (config_accounts st)).
Proof.
  unfold getAllAccountConfigs. rewrite fold_configs_lookup.
  destruct (list.last _); reflexivity.
Qed.

(* ------------------------------------------------------------------ *)
(** ** Extra properties: registration and configuration *)

(** X: [initializeAccount(c)] succeeds exactly when [client.initialize()]
    resolves and (exchange, accountType) is one of binance/futures,
    binance/portfolioMargin, bybit/unified.  On success it stores a client
    built with [c]'s key, secret and base URL under [c.name], sets that
    name's last fetch time, error count and backoff time to 0, and changes
    nothing about any other name, the cache or the configuration.  This
    holds for every name except "__proto__", whose assignment on a plain
    object sets the object's prototype instead of storing an entry. *)
Theorem initializeAccount_outcome c ok err st (Hproto : name c <> "__proto__") :
  ((exists st', initializeAccount c ok err st = Ret st') <->
   ok = true /\ (exchange c, accountType c) ∈ supportedKinds) /\
  forall st', initializeAccount c ok err st = Ret st' ->
    (exists cl, exchangeClients st' !! name c = Some cl /\
                clientCreds cl = (apiKey c, apiSecret c, baseUrl c)) /\
    lastFetchTimes st' !! name c = Some 0 /\ errorCounts st' !! name c = Some 0 /\
    backoffTimes st' !! name c = Some 0 /\
    (forall b, b <> name c -> acct_view st' b = acct_view st b) /\
    cachedData st' = cachedData st /\ config_accounts st' = config_accounts st.
Proof.
  split.
  - split.
    + intros [st' E]. destruct (initializeAccount_ret _ _ _ _ _ E) as (cl & Hcl & Hok & _).
      split; [exact Hok|]. apply makeClient_ok. eauto.
    + intros [Hok Hs]. by apply initializeAccount_some.
  - intros st' E. destruct (initializeAccount_ret _ _ _ _ _ E) as (cl & Hcl & _ & ->).
    simpl. rewrite !lookup_insert_eq.
    split; [exists cl; split; [reflexivity|by apply makeClient_creds]|].
    split; [reflexivity|]. split; [reflexivity|]. split; [reflexivity|].
    split; [|split; reflexivity].
    intros b Hb. unfold acct_view; simpl. rewrite !lookup_insert_ne by congruence.
    reflexivity.
Qed.

Lemma initializeAccount_outcome_witness :
  name cfgB <> "__proto__" /\
  exists st', initializeAccount cfgB true "e" stAB = Ret st'.
Proof.
  assert (Hp : name cfgB <> "__proto__") by discriminate.
  split; [exact Hp|].
  apply (proj2 (proj1 (initializeAccount_outcome cfgB true "e" stAB Hp))).
  split; [reflexivity|]. apply list_elem_of_In. simpl. auto.
Defined.

(** X: the error [initializeAccount] rejects with: an unknown exchange is
    reported first, then an account type the exchange does not support;
    only for a supported pair is [client.initialize()] awaited, and its
    rejection is passed on. *)
Theorem initializeAccount_errors c ok err st :
  (exchange c <> "binance" -> exchange c <> "bybit" ->
   initializeAccount c ok err st = Throw ("Unsupported exchange: " ++ exchange c)) /\
  (exchange c = "binance" -> accountType c <> "futures" ->
   accountType c <> "portfolioMargin" ->
   initializeAccount c ok err st
   = Throw ("Unsupported Binance account type: " ++ accountType c)) /\
  (exchange c = "bybit" -> accountType c <> "unified" ->
   initializeAccount c ok err st
   = Throw ("Unsupported Bybit account type: " ++ accountType c)) /\
  ((exchange c, accountType c) ∈ supportedKinds -> ok = false ->
   initializeAccount c ok err st = Throw err).
Proof.
  unfold initializeAccount, makeClient. split; [|split; [|split]].
  - intros H1 H2. rewrite (proj2 (String.eqb_neq _ _) H1), (proj2 (String.eqb_neq _ _) H2).
    reflexivity.
  - intros H1 H2 H3. rewrite H1, (proj2 (String.eqb_neq _ _) H2),
      (proj2 (String.eqb_neq _ _) H3). reflexivity.
  - intros H1 H2. rewrite H1, (proj2 (String.eqb_neq _ _) H2). reflexivity.
  - intros Hs ->. apply makeClient_ok in Hs. destruct Hs as [cl Hcl].
    unfold makeClient in Hcl. rewrite Hcl. reflexivity.
Qed.

Lemma initAll_initial_view inits cfg n :
  let st := initializeAllAccounts inits (initialState cfg) in
  (is_Some (exchangeClients st !! n) <->
   exists c, c ∈ cfg /\ name c = n /\ inits n = true /\
             (exchange c, accountType c) ∈ supportedKinds) /\
  ((exists c, c ∈ cfg /\ name c = n /\ inits n = true /\
              (exchange c, accountType c) ∈ supportedKinds) ->
   lastFetchTimes st !! n = Some 0 /\ errorCounts st !! n = Some 0 /\
   backoffTimes st !! n = Some 0) /\
  ((~ exists c, c ∈ cfg /\ name c = n /\ inits n = true /\
                (exchange c, accountType c) ∈ supportedKinds) ->
   lastFetchTimes st !! n = None /\ errorCounts st !! n = None /\
   backoffTimes st !! n = None).
Proof.
  intros st. subst st. rewrite initializeAll_fold_eq. cbn [config_accounts initialState].
  destruct (initFold_view inits cfg (initialState cfg) n) as (H1 & H2 & _).
  fold (initWitness inits cfg n).
  split; [split|split].
  - intros Hs. destruct (decide (initWitness inits cfg n)) as [Hw|Hw]; [exact Hw|].
    pose proof (H2 Hw) as Hv. unfold acct_view in Hv. injection Hv as V1 _ _ _ _ _.
    rewrite V1 in Hs. simpl in Hs. rewrite lookup_empty in Hs. by destruct Hs.
  - intros Hw. apply (H1 Hw).
  - intros Hw. apply (H1 Hw).
  - intros Hw. pose proof (H2 Hw) as Hv. unfold acct_view in Hv.
    injection Hv as _ V2 V3 V4 _ _. rewrite V2, V3, V4. simpl.
    rewrite !lookup_empty. auto.
Qed.

(** X: after [initializeAllAccounts()] from the initial state, a name has
    a client exactly when some configuration entry with that name has a
    supported exchange and account type and its [initialize()] resolved; a
    failing entry does not stop the others.  Registered names start with
    last fetch time, error count and backoff time 0; the other names have
    no tracking entries. *)
Theorem initializeAllAccounts_registry inits cfg n :
  let st := initializeAllAccounts inits (initialState cfg) in
  (is_Some (exchangeClients st !! n) <->
   exists c, c ∈ cfg /\ name c = n /\ inits n = true /\
             (exchange c, accountType c) ∈ supportedKinds) /\
  ((exists c, c ∈ cfg /\ name c = n /\ inits n = true /\
              (exchange c, accountType c) ∈ supportedKinds) ->
   lastFetchTimes st !! n = Some 0 /\ errorCounts st !! n = Some 0 /\
   backoffTimes st !! n = Some 0) /\
  ((~ exists c, c ∈ cfg /\ name c = n /\ inits n = true /\
                (exchange c, accountType c) ∈ supportedKinds) ->
   lastFetchTimes st !! n = None /\ errorCounts st !! n = None /\
   backoffTimes st !! n = None).
Proof. exact (initAll_initial_view inits cfg n). Qed.

(** X: [getAllAccountConfigs()] maps a name to the LAST configuration
    entry with that name, [getAccountConfig] to the FIRST; when the names
    of [config.accounts] are distinct, the two agree. *)
Theorem config_lookups st n :
  getAllAccountConfigs st !! n = list.last (filter (fun c => name c = n) (config_accounts st)) /\
  getAccountConfig st n = head (filter (fun c => name c = n) (config_accounts st)) /\
  (NoDup (map name (config_accounts st)) ->
   getAllAccountConfigs st !! n = getAccountConfig st n).
Proof.
  split; [apply getAllAccountConfigs_lookup|]. split; [apply getAccountByName_head|].
  intros Hnd. rewrite getAllAccountConfigs_lookup. unfold getAccountConfig.
  rewrite getAccountByName_head.
  pose proof (filter_name_nodup (config_accounts st) n Hnd) as Hl.
  destruct (filter _ _) as [|x [|y l]]; simpl in *; [reflexivity|reflexivity|lia].
Qed.

(* ------------------------------------------------------------------ *)
(** ** One fetch attempt *)

Lemma gt_opt_true o t : gt_opt o t = true <-> exists b, o = Some b /\ t < b.
Proof.
  destruct o as [b|]; simpl.
  - rewrite bool_decide_eq_true. split; [eauto|]. intros (b' & [= <-] & H). exact H.
  - split; [discriminate|]. intros (b' & H & _). discriminate.
Qed.

Lemma cons_neq_self {A} (a : A) l : a :: l <> l.
Proof. intros H. apply (f_equal length) in H. simpl in H. lia. Qed.

(* ------------------------------------------------------------------ *)
(** ** The state invariant *)

Lemma state_inv_initial cfg : state_inv (initialState cfg).
Proof.
  split; [|split]; simpl.
  - intros a c H. by rewrite lookup_empty in H.
  - intros a [H|[H|[H|H]]]; rewrite lookup_empty in H; by destruct H.
  - intros a c H. by rewrite lookup_empty in H.
Qed.

Lemma state_inv_initializeAccount c ok err st st' :
  state_inv st -> initializeAccount c ok err st = Ret st' -> state_inv st'.
Proof.
  intros (I1 & I2 & I3) E. destruct (initializeAccount_ret _ _ _ _ _ E) as (cl & _ & _ & ->).
  split; [|split]; simpl.
  - intros a k Hk. destruct (decide (a = name c)) as [->|Hne].
    + rewrite lookup_insert_eq in Hk. injection Hk as <-. lia.
    + rewrite lookup_insert_ne in Hk by congruence. eauto.
  - intros a Ha. destruct (decide (a = name c)) as [->|Hne].
    + rewrite lookup_insert_eq. eauto.
    + repeat rewrite lookup_insert_ne in Ha by congruence.
      rewrite lookup_insert_ne by congruence. auto.
  - exact I3.
Qed.

Lemma state_inv_initFold inits (l : list AccountConfig) st :
  state_inv st -> state_inv (fold_left (initStep inits) l st).
Proof.
  revert st. induction l as [|c l IH]; intros st Hi; simpl; auto.
  apply IH. unfold initStep. destruct (initializeAccount _ _ _ st) eqn:E; auto.
  eapply state_inv_initializeAccount; eauto.
Qed.

Lemma state_inv_setup inits st : state_inv st -> state_inv (startDataFetcher_setup inits st).
Proof.
  intros Hi. pose proof (state_inv_initFold inits (config_accounts st) st Hi) as Hf.
  rewrite <- initializeAll_fold_eq in Hf.
  destruct Hf as (I1 & I2 & I3).
  unfold startDataFetcher_setup. split; [|split]; cbn [errorCounts lastFetchTimes
    backoffTimes exchangeClients cachedData accounts accountConfigs config_accounts].
  - exact I1.
  - exact I2.
  - intros a c Hc. unfold getAllAccountConfigs in Hc. rewrite fold_configs_lookup in Hc.
    destruct (list.last _) as [c'|] eqn:El; [|by rewrite lookup_empty in Hc].
    injection Hc as ->. apply last_Some_elem_of in El.
    apply list_elem_of_filter in El. exact El.
Qed.

Lemma state_inv_step ob b st : state_inv st -> state_inv (fetchAccountStep ob b st).
Proof.
  intros (I1 & I2 & I3).
  unfold fetchAccountStep, fetchAccountData.
  destruct (exchangeClients st !! b) as [cl|] eqn:Hcl; [|split; auto].
  destruct (gt_opt _ _); [split; auto|].
  destruct (outcome ob) as [d|]; simpl.
  - split; [|split]; simpl.
    + intros a k Hk. destruct (decide (a = b)) as [->|Hne].
      * rewrite lookup_insert_eq in Hk. injection Hk as <-. lia.
      * rewrite lookup_insert_ne in Hk by congruence. eauto.
    + intros a Ha. destruct (decide (a = b)) as [->|Hne]; [by rewrite Hcl|].
      repeat rewrite lookup_insert_ne in Ha by congruence. auto.
    + intros a c Hc. unfold getAccountConfig in Hc.
      destruct (getAccountByName _ b) as [cf|] eqn:Eg.
      * destruct (decide (a = b)) as [->|Hne].
        -- rewrite lookup_insert_eq in Hc. injection Hc as <-.
           rewrite getAccountByName_head in Eg. apply head_Some_elem_of in Eg.
           apply list_elem_of_filter in Eg. exact Eg.
        -- rewrite lookup_insert_ne in Hc by congruence. auto.
      * auto.
  - split; [|split]; simpl.
    + intros a k Hk. destruct (decide (a = b)) as [->|Hne].
      * rewrite lookup_insert_eq in Hk. injection Hk as <-.
        destruct (errorCounts st !! b) as [k0|] eqn:Ek; simpl; [specialize (I1 b k0 Ek)|]; lia.
      * rewrite lookup_insert_ne in Hk by congruence. eauto.
    + intros a Ha. destruct (decide (a = b)) as [->|Hne]; [by rewrite Hcl|].
      destruct (bool_decide _); repeat rewrite lookup_insert_ne in Ha by congruence; auto.
    + exact I3.
Qed.

Lemma state_inv_post body ok st : state_inv st -> state_inv (postAccounts body ok st).1.
Proof.
  intros Hi. unfold postAccounts.
  destruct (_ || _); simpl; auto.
  destruct (getAccountConfig _ _); simpl; auto.
  destruct (initializeAccount _ _ _ st) eqn:E; simpl; auto.
  eapply state_inv_initializeAccount; eauto.
Qed.

Lemma state_inv_select n st st' :
  state_inv st -> setCurrentAccount n st = Ret st' -> state_inv st'.
Proof.
  unfold setCurrentAccount. intros Hi Hs.
  destruct (bool_decide _); [|discriminate]. injection Hs as <-. exact Hi.
Qed.

Lemma reachable_state_inv_aux st : reachable st -> state_inv st.
Proof.
  induction 1.
  - apply state_inv_initial.
  - by apply state_inv_setup.
  - by apply state_inv_step.
  - by apply state_inv_post.
  - eapply state_inv_select; eauto.
Qed.

(* ------------------------------------------------------------------ *)
(** ** Extra properties: fetching and selection *)

(** X: [fetchAccountData(a)] calls the connector exactly when [a] has a
    client and [backoffTimes[a] > Date.now()] is false; it returns data
    only when that call resolved, and then the connector's data.  It
    changes nothing but [a]'s three tracking entries (and the call log):
    never the cache, the clients, the configuration or another account. *)
Theorem fetchAccountData_contract ob a st :
  let '(st', r) := fetchAccountData ob a st in
  (connectorCalls st' = a :: connectorCalls st <->
   is_Some (exchangeClients st !! a) /\
   ~ (exists b, backoffTimes st !! a = Some b /\ t_check ob < b)) /\
  (connectorCalls st' = connectorCalls st \/ connectorCalls st' = a :: connectorCalls st) /\
  (forall d, r = Some d <->
   is_Some (exchangeClients st !! a) /\
   ~ (exists b, backoffTimes st !! a = Some b /\ t_check ob < b) /\
   outcome ob = Resolved d) /\
  cachedData st' = cachedData st /\ exchangeClients st' = exchangeClients st /\
  config_accounts st' = config_accounts st /\
  (forall b, b <> a ->
   lastFetchTimes st' !! b = lastFetchTimes st !! b /\
   errorCounts st' !! b = errorCounts st !! b /\
   backoffTimes st' !! b = backoffTimes st !! b).
Proof.
  unfold fetchAccountData.
  destruct (exchangeClients st !! a) as [cl|] eqn:Hcl.
  2:{ split; [split; [intros H; symmetry in H; by apply cons_neq_self in H|intros [[? H] _]; discriminate]|].
      split; [by left|]. split; [|split; [reflexivity|split; [reflexivity|split; auto]]].
      intros d. split; [discriminate|]. intros [[? H] _]. discriminate. }
  destruct (gt_opt (backoffTimes st !! a) (t_check ob)) eqn:Hb.
  { apply gt_opt_true in Hb.
    split; [split; [intros H; symmetry in H; by apply cons_neq_self in H|intros [_ H]; contradiction]|].
    split; [by left|]. split; [|split; [reflexivity|split; [reflexivity|split; auto]]].
    intros d. split; [discriminate|]. intros (_ & H & _). contradiction. }
  assert (Hnb : ~ (exists b, backoffTimes st !! a = Some b /\ t_check ob < b)).
  { rewrite <- gt_opt_true. congruence. }
  destruct (outcome ob) as [d0|] eqn:Ho; simpl.
  - split; [split; [intros _; split; eauto|reflexivity]|].
    split; [by right|]. split.
    + intros d. split; [intros [= <-]; eauto|]. intros (_ & _ & [= <-]). reflexivity.
    + split; [reflexivity|split; [reflexivity|split; [reflexivity|]]].
      intros b Hne. rewrite !lookup_insert_ne by congruence. auto.
  - split; [split; [intros _; split; eauto|reflexivity]|].
    split; [by right|]. split.
    + intros d. split; [discriminate|]. intros (_ & _ & H). discriminate.
    + split; [reflexivity|split; [reflexivity|split; [reflexivity|]]].
      intros b Hne. rewrite lookup_insert_ne by congruence.
      split; [reflexivity|split; [reflexivity|]].
      destruct (bool_decide _); [|reflexivity]. by rewrite lookup_insert_ne by congruence.
Qed.

(** X: in every state reachable by startup, fetches, [POST /accounts] and
    account selection, error counts are never negative, only names with a
    client have a last fetch time, an error count, a backoff time or cached
    data, and [cachedData.accountConfigs] maps each name to a configuration
    entry of that name. *)
Theorem reachable_state_invariant st (Hr : reachable st) :
  (forall a c, errorCounts st !! a = Some c -> 0 <= c) /\
  (forall a, (is_Some (lastFetchTimes st !! a) \/ is_Some (errorCounts st !! a) \/
              is_Some (backoffTimes st !! a) \/ is_Some (accounts (cachedData st) !! a)) ->
             is_Some (exchangeClients st !! a)) /\
  (forall a c, accountConfigs (cachedData st) !! a = Some c ->
               name c = a /\ c ∈ config_accounts st).
Proof. exact (reachable_state_inv_aux st Hr). Qed.

Lemma reachable_state_invariant_witness :
  reachable stAok /\ is_Some (exchangeClients stAok !! "A").
Proof.
  assert (Hr : reachable stAok) by (apply r_step, reachable_stAB).
  split; [exact Hr|].
  apply (proj1 (proj2 (reachable_state_invariant stAok Hr)) "A").
  right; right; right. vm_compute. eexists. reflexivity.
Defined.

Lemma repeat_snoc_cons {A} (x : A) n l : repeat x n ++ x :: l = x :: (repeat x n ++ l).
Proof. induction n as [|n IH]; simpl; [reflexivity|]. by rewrite IH. Qed.

Lemma runSteps_failures a cl (l : list Obs) s k :
  exchangeClients s !! a = Some cl -> errorCounts s !! a = Some k ->
  backoffTimes s !! a = Some 0 -> 0 <= k -> k + Z.of_nat (length l) <= 4 ->
  Forall (fun o => outcome o = Rejected /\ 0 <= t_check o) l ->
  exchangeClients (runSteps a l s) !! a = Some cl /\
  errorCounts (runSteps a l s) !! a = Some (k + Z.of_nat (length l)) /\
  backoffTimes (runSteps a l s) !! a = Some 0 /\
  connectorCalls (runSteps a l s) = repeat a (length l) ++ connectorCalls s.
Proof.
  revert s k. induction l as [|o l IH]; intros s k Hc Hk Hb Hk0 Hlen' Hf; simpl.
  - rewrite Z.add_0_r. auto.
  - inversion Hf as [|? ? [Ho Ht] Hf']; subst.
    assert (Hnb : gt_opt (backoffTimes s !! a) (t_check o) = false).
    { rewrite Hb. simpl. apply bool_decide_eq_false. lia. }
    rewrite (step_failure s a o cl Hc Hnb Ho). cbn zeta.
    rewrite Hk. simpl.
    assert (Hlt : ~ (MAX_CONSECUTIVE_ERRORS <= k + 1)).
    { unfold MAX_CONSECUTIVE_ERRORS. cbn [length] in Hlen'. lia. }
    rewrite (bool_decide_false _ Hlt).
    cbn [length] in Hlen'.
    destruct (IH (mkSt (config_accounts s) (exchangeClients s) (lastFetchTimes s)
                 (<[a:=k + 1]> (errorCounts s)) (backoffTimes s) (cachedData s)
                 (a :: connectorCalls s)) (k + 1)) as (R1 & R2 & R3 & R4);
      cbn [exchangeClients errorCounts backoffTimes]; rewrite ?lookup_insert_eq; auto; try lia.
    split; [exact R1|]. split; [rewrite R2; f_equal; lia|]. split; [exact R3|].
    rewrite R4. cbn [connectorCalls repeat length]. apply repeat_snoc_cons.
Qed.

(** X: starting from an account with a client, error count 0 and backoff
    time 0 (just registered, or just fetched successfully), the first four
    consecutive failed fetches are all attempted and set no backoff; the
    fifth sets the backoff to end 30 s after it, and an attempt before that
    is skipped without calling the connector. *)
Theorem five_failures_to_backoff st a obs ob5 ob6
  (Hcl : is_Some (exchangeClients st !! a))
  (Hc0 : errorCounts st !! a = Some 0) (Hb0 : backoffTimes st !! a = Some 0)
  (Hlen : length obs = 4%nat)
  (Hobs : Forall (fun o => outcome o = Rejected /\ 0 <= t_check o) obs)
  (H5 : outcome ob5 = Rejected) (H5t : 0 <= t_check ob5)
  (H6 : t_check ob6 < t_done ob5 + 30000) :
  let s4 := runSteps a obs st in
  let s5 := fetchAccountStep ob5 a s4 in
  errorCounts s4 !! a = Some 4 /\ backoffTimes s4 !! a = Some 0 /\
  connectorCalls s4 = [a; a; a; a] ++ connectorCalls st /\
  errorCounts s5 !! a = Some 5 /\ backoffTimes s5 !! a = Some (t_done ob5 + 30000) /\
  connectorCalls s5 = a :: connectorCalls s4 /\
  fetchAccountStep ob6 a s5 = s5.
Proof.
  destruct Hcl as [cl Hcl]. intros s4 s5.
  assert (Hk : 0 + Z.of_nat (length obs) <= 4) by (rewrite Hlen; simpl; lia).
  destruct (runSteps_failures a cl obs st 0 Hcl Hc0 Hb0 ltac:(lia) Hk Hobs)
    as (R1 & R2 & R3 & R4).
  rewrite Hlen in R2, R4. simpl in R2.
  assert (Hnb5 : gt_opt (backoffTimes s4 !! a) (t_check ob5) = false).
  { subst s4. rewrite R3. simpl. apply bool_decide_eq_false. lia. }
  pose proof (step_failure s4 a ob5 cl R1 Hnb5 H5) as E5. cbn zeta in E5.
  subst s4. rewrite R2 in E5. simpl in E5.
  assert (E5' : s5 = mkSt (config_accounts (runSteps a obs st))
                  (exchangeClients (runSteps a obs st))
                  (lastFetchTimes (runSteps a obs st))
                  (<[a:=5]> (errorCounts (runSteps a obs st)))
                  (<[a:=t_done ob5 + 30000]> (backoffTimes (runSteps a obs st)))
                  (cachedData (runSteps a obs st)) (a :: connectorCalls (runSteps a obs st))).
  { subst s5. rewrite E5. reflexivity. }
  clearbody s5. subst s5. cbn [errorCounts backoffTimes connectorCalls].
  rewrite !lookup_insert_eq.
  split; [exact R2|]. split; [exact R3|]. split; [exact R4|].
  split; [reflexivity|]. split; [reflexivity|]. split; [reflexivity|].
  apply step_skip. cbn [backoffTimes]. rewrite lookup_insert_eq. simpl.
  apply bool_decide_eq_true. exact H6.
Qed.

Lemma five_failures_to_backoff_witness :
  backoffTimes (fetchAccountStep (failAt 24) "A"
                  (runSteps "A" (map failAt [20; 21; 22; 23]) stAok)) !! "A"
  = Some 30024.
Proof.
  assert (Hcl : is_Some (exchangeClients stAok !! "A")) by (vm_compute; eexists; reflexivity).
  assert (Hc0 : errorCounts stAok !! "A" = Some 0) by (vm_compute; reflexivity).
  assert (Hb0 : backoffTimes stAok !! "A" = Some 0) by (vm_compute; reflexivity).
  assert (Hobs : Forall (fun o => outcome o = Rejected /\ 0 <= t_check o)
                   (map failAt [20; 21; 22; 23])).
  { repeat constructor; cbn; lia. }
  assert (H6 : t_check (failAt 100) < t_done (failAt 24) + 30000) by (cbn; lia).
  destruct (five_failures_to_backoff stAok "A" (map failAt [20; 21; 22; 23])
              (failAt 24) (failAt 100) Hcl Hc0 Hb0 eq_refl Hobs eq_refl
              ltac:(cbn; lia) H6) as (_ & _ & _ & _ & Hb & _).
  exact Hb.
Defined.

(* ------------------------------------------------------------------ *)
(** ** Extra properties: startup *)

Lemma setup_initial_fields inits cfg :
  let st1 := initializeAllAccounts inits (initialState cfg) in
  let st := startDataFetcher_setup inits (initialState cfg) in
  config_accounts st1 = cfg /\ cachedData st1 = emptyCache /\
  config_accounts st = cfg /\ exchangeClients st = exchangeClients st1 /\
  lastFetchTimes st = lastFetchTimes st1 /\ errorCounts st = errorCounts st1 /\
  backoffTimes st = backoffTimes st1 /\
  cachedData st = mkCombinedData ∅ (default "" (head (map name cfg))) (map name cfg)
                    (getAllAccountConfigs st).
Proof.
  intros st1 st.
  destruct (initFold_view inits cfg (initialState cfg) "") as (_ & _ & Hc & Hf).
  change (fold_left (initStep inits) cfg (initialState cfg)) with st1 in Hc, Hf.
  cbn [config_accounts initialState] in Hf.
  assert (Hc' : cachedData st1 = emptyCache) by exact Hc.
  assert (Hf' : config_accounts st1 = cfg) by exact Hf.
  split; [exact Hf'|]. split; [exact Hc'|].
  subst st. unfold startDataFetcher_setup, getAvailableAccounts. fold st1.
  cbn [config_accounts exchangeClients lastFetchTimes errorCounts backoffTimes cachedData].
  rewrite Hf', Hc'. repeat split.
  unfold getAllAccountConfigs. cbn [config_accounts]. rewrite Hf'.
  destruct cfg; reflexivity.
Qed.

(** X: right after the setup part of [startDataFetcher()] from the static
    configuration [cfg], before any fetch pass: the cache holds no account
    data, the selected account is the first configured name ("" when there
    is none), [availableAccounts] lists the configured names, and
    [accountConfigs] is [getAllAccountConfigs()].  [getHealthStatus()] has
    an entry exactly for the names that got a client, each reporting not
    healthy, never fetched, not in backoff, error count 0, and the first
    configuration entry of that name. *)
Theorem startup_state inits cfg now n :
  let st := startDataFetcher_setup inits (initialState cfg) in
  accounts (cachedData st) = ∅ /\
  currentAccount (cachedData st) = default "" (head (map name cfg)) /\
  availableAccounts (cachedData st) = map name cfg /\
  accountConfigs (cachedData st) = getAllAccountConfigs st /\
  (0 <= now ->
   getHealthStatus now st !! n =
   if decide (initWitness inits cfg n)
   then Some (mkHealth false None None false None 0 (getAccountByName cfg n))
   else None).
Proof.
  intros st.
  destruct (setup_initial_fields inits cfg) as (_ & _ & F0 & F1 & F2 & F3 & F4 & F5).
  fold st in F0, F1, F2, F3, F4, F5.
  rewrite F5. cbn [accounts currentAccount availableAccounts accountConfigs].
  split; [reflexivity|]. split; [reflexivity|]. split; [reflexivity|].
  split; [reflexivity|].
  intros Hnow. unfold getHealthStatus. rewrite map_lookup_imap, F1.
  destruct (initAll_initial_view inits cfg n) as (V1 & V2 & V3).
  fold (initWitness inits cfg n) in V1, V2, V3.
  destruct (decide (initWitness inits cfg n)) as [Hw|Hw].
  - destruct (proj2 V1 Hw) as [cl Hcl]. rewrite Hcl. simpl. f_equal.
    destruct (V2 Hw) as (L & E & B).
    unfold healthOf, getAccountConfig. rewrite F0, F2, F3, F4, L, E, B. simpl.
    rewrite (bool_decide_false (now < 0)) by lia. reflexivity.
  - destruct (exchangeClients _ !! n) eqn:Hcl; [|reflexivity].
    destruct Hw. apply V1. eexists. reflexivity.
Qed.

Lemma initFold_client_origin inits (l : list AccountConfig) st n cl :
  exchangeClients (fold_left (initStep inits) l st) !! n = Some cl ->
  exchangeClients st !! n = Some cl \/
  exists c, c ∈ l /\ name c = n /\ makeClient c = Ret cl.
Proof.
  revert st. induction l as [|c l IH]; intros st H; simpl in H; [by left|].
  destruct (IH _ H) as [H1|(c' & Hc' & Hn & Hm)].
  - destruct (initStep_cases inits st c) as [[E _]|(_ & _ & cl' & Hm & E)];
      rewrite E in H1; [by left|].
    simpl in H1. destruct (decide (name c = n)) as [<-|Hne].
    + rewrite lookup_insert_eq in H1. injection H1 as <-.
      right. exists c. rewrite elem_of_cons. auto.
    + rewrite lookup_insert_ne in H1 by congruence. by left.
  - right. exists c'. rewrite elem_of_cons. auto.
Qed.

Lemma shipped_elem cred c :
  c ∈ shippedConfig cred <->
  exists n t, (n, t) ∈ [("SF1", "futures"); ("SF2", "futures");
                        ("PM1", "portfolioMargin"); ("PM2", "portfolioMargin")] /\
    c = mkAccountConfig n "binance" t (cred n).1.1 (cred n).1.2 (Some (cred n).2).
Proof.
  unfold shippedConfig. cbn [map]. rewrite !elem_of_cons, elem_of_nil. split.
  - intros [->|[->|[->|[->|[]]]]];
      [exists "SF1", "futures"|exists "SF2", "futures"|
       exists "PM1", "portfolioMargin"|exists "PM2", "portfolioMargin"];
      rewrite !elem_of_cons; split; auto 6.
  - intros (n & t & Hin & ->). rewrite !elem_of_cons, elem_of_nil in Hin.
    destruct Hin as [[= -> ->]|[[= -> ->]|[[= -> ->]|[[= -> ->]|[]]]]]; tauto.
Qed.

(** X: with the shipped [config.accounts] (whatever keys, secrets and base
    URLs the environment gives), startup offers SF1, SF2, PM1 and PM2 in
    that order and selects SF1; a name gets a client exactly when it is one
    of these four and its [initialize()] resolves, and the client is built
    with that account's own key, secret and base URL. *)
Theorem shipped_startup cred inits n :
  let st := startDataFetcher_setup inits (initialState (shippedConfig cred)) in
  availableAccounts (cachedData st) = ["SF1"; "SF2"; "PM1"; "PM2"] /\
  currentAccount (cachedData st) = "SF1" /\
  (is_Some (exchangeClients st !! n) <->
   n ∈ ["SF1"; "SF2"; "PM1"; "PM2"] /\ inits n = true) /\
  (forall cl, exchangeClients st !! n = Some cl ->
   clientCreds cl = ((cred n).1.1, (cred n).1.2, Some (cred n).2)).
Proof.
  intros st.
  destruct (setup_initial_fields inits (shippedConfig cred)) as (_ & _ & _ & F1 & _ & _ & _ & F5).
  fold st in F1, F5. rewrite F5. cbn [currentAccount availableAccounts].
  split; [reflexivity|]. split; [reflexivity|].
  destruct (initAll_initial_view inits (shippedConfig cred) n) as (V1 & _ & _).
  fold (initWitness inits (shippedConfig cred) n) in V1.
  split.
  - rewrite F1, V1. unfold initWitness. split.
    + intros (c & Hc & Hn & Hi & _). split; [|exact Hi].
      apply shipped_elem in Hc as (m & t & Hin & ->). simpl in Hn. subst m.
      rewrite !elem_of_cons, elem_of_nil in Hin. rewrite !elem_of_cons, elem_of_nil.
      destruct Hin as [[= -> _]|[[= -> _]|[[= -> _]|[[= -> _]|[]]]]]; tauto.
    + intros [Hn Hi]. rewrite !elem_of_cons, elem_of_nil in Hn.
      assert (Hk : exists t, (n, t) ∈ [("SF1", "futures"); ("SF2", "futures");
                        ("PM1", "portfolioMargin"); ("PM2", "portfolioMargin")] /\
                   ("binance", t) ∈ supportedKinds).
      { unfold supportedKinds.
        destruct Hn as [->|[->|[->|[->|[]]]]]; eexists;
          rewrite !elem_of_cons; split; eauto 6. }
      destruct Hk as (t & Hin & Hs).
      exists (mkAccountConfig n "binance" t (cred n).1.1 (cred n).1.2 (Some (cred n).2)).
      split; [apply shipped_elem; eauto|]. simpl. auto.
  - intros cl Hcl. rewrite F1, initializeAll_fold_eq in Hcl.
    cbn [config_accounts initialState] in Hcl.
    destruct (initFold_client_origin _ _ _ _ _ Hcl) as [H0|(c & Hc & Hn & Hm)].
    + simpl in H0. rewrite lookup_empty in H0. discriminate.
    + apply makeClient_creds in Hm. rewrite Hm.
      apply shipped_elem in Hc as (m & t & _ & ->). simpl in Hn |- *. by subst m.
Qed.

(* ------------------------------------------------------------------ *)
(** ** Extra properties: the routes *)

Lemma postAccounts_view body ok st :
  let n := default "" (b_name body) in
  let '(st', resp) := postAccounts body ok st in
  cachedData st' = cachedData st /\ config_accounts st' = config_accounts st /\
  connectorCalls st' = connectorCalls st /\
  (forall b, b <> n -> acct_view st' b = acct_view st b) /\
  (forall m, resp = AddedOk m -> m = n) /\
  (resp = AddedOk n <->
   falsy (b_name body) = false /\ falsy (b_exchange body) = false /\
   falsy (b_accountType body) = false /\ falsy (b_apiKey body) = false /\
   falsy (b_apiSecret body) = false /\ getAccountConfig st n = None /\
   (default "" (b_exchange body), default "" (b_accountType body)) ∈ supportedKinds /\
   ok = true) /\
  (resp = AddedOk n ->
   (exists cl, exchangeClients st' !! n = Some cl /\
    clientCreds cl = (default "" (b_apiKey body), default "" (b_apiSecret body),
                      b_baseUrl body)) /\
   lastFetchTimes st' !! n = Some 0 /\ errorCounts st' !! n = Some 0 /\
   backoffTimes st' !! n = Some 0) /\
  (resp <> AddedOk n -> st' = st).
Proof.
  intros n. unfold postAccounts. fold n.
  destruct (_ || _) eqn:Hf.
  { split; [reflexivity|]. split; [reflexivity|]. split; [reflexivity|].
    split; [auto|]. split; [discriminate|]. split; [|split; [discriminate|auto]].
    split; [discriminate|]. intros (H1 & H2 & H3 & H4 & H5 & _).
    rewrite H1, H2, H3, H4, H5 in Hf. discriminate. }
  apply orb_false_iff in Hf as [Hf H5]. apply orb_false_iff in Hf as [Hf H4].
  apply orb_false_iff in Hf as [Hf H3]. apply orb_false_iff in Hf as [H1 H2].
  destruct (getAccountConfig st n) as [c0|] eqn:Hg.
  { split; [reflexivity|]. split; [reflexivity|]. split; [reflexivity|].
    split; [auto|]. split; [discriminate|]. split; [|split; [discriminate|auto]].
    split; [discriminate|]. intros (_ & _ & _ & _ & _ & H & _). discriminate. }
  set (c := mkAccountConfig n (default "" (b_exchange body))
              (default "" (b_accountType body)) (default "" (b_apiKey body))
              (default "" (b_apiSecret body)) (b_baseUrl body)).
  destruct (initializeAccount c ok "initialize failed" st) as [st'|m] eqn:Hi.
  - destruct (initializeAccount_ret _ _ _ _ _ Hi) as (cl & Hm & Hok & ->).
    cbn [cachedData config_accounts connectorCalls exchangeClients lastFetchTimes
         errorCounts backoffTimes].
    split; [reflexivity|]. split; [reflexivity|]. split; [reflexivity|].
    split.
    { intros b Hb. unfold acct_view. cbn [exchangeClients lastFetchTimes errorCounts
        backoffTimes cachedData]. subst c. cbn [name].
      rewrite !lookup_insert_ne by congruence. reflexivity. }
    split; [intros m [= ->]; reflexivity|].
    split.
    { split; [intros _|intros _; reflexivity].
      repeat split; auto. exact (proj1 (makeClient_ok c) (ex_intro _ cl Hm)). }
    split; [|intros H; destruct H; reflexivity].
    intros _. subst c. cbn [name]. rewrite !lookup_insert_eq.
    split; [|auto]. exists cl. split; [reflexivity|].
    by apply makeClient_creds in Hm.
  - split; [reflexivity|]. split; [reflexivity|]. split; [reflexivity|].
    split; [auto|]. split; [discriminate|]. split; [|split; [discriminate|auto]].
    split; [discriminate|]. intros (_ & _ & _ & _ & _ & _ & Hs & Hok).
    destruct (initializeAccount_some c ok "initialize failed" st Hok Hs) as [s' E].
    congruence.
Qed.

(** X: [POST /accounts] never changes the cache, the static configuration,
    the connector calls or anything stored for another name.  It answers
    "added" exactly when the five required fields are present and
    non-empty, the name is not in the static configuration, the exchange
    and account type are supported and [initialize()] resolves; then the
    name has a client built from the body's key, secret and base URL and
    tracking entries 0.  Every other answer leaves the state unchanged.
    This is for a body whose fields are strings or absent, with a name
    other than "__proto__". *)
Theorem postAccounts_effects body ok st (Hproto : b_name body <> Some "__proto__") :
  let n := default "" (b_name body) in
  let '(st', resp) := postAccounts body ok st in
  cachedData st' = cachedData st /\ config_accounts st' = config_accounts st /\
  connectorCalls st' = connectorCalls st /\
  (forall b, b <> n -> acct_view st' b = acct_view st b) /\
  (forall m, resp = AddedOk m -> m = n) /\
  (resp = AddedOk n <->
   falsy (b_name body) = false /\ falsy (b_exchange body) = false /\
   falsy (b_accountType body) = false /\ falsy (b_apiKey body) = false /\
   falsy (b_apiSecret body) = false /\ getAccountConfig st n = None /\
   (default "" (b_exchange body), default "" (b_accountType body)) ∈ supportedKinds /\
   ok = true) /\
  (resp = AddedOk n ->
   (exists cl, exchangeClients st' !! n = Some cl /\
    clientCreds cl = (default "" (b_apiKey body), default "" (b_apiSecret body),
                      b_baseUrl body)) /\
   lastFetchTimes st' !! n = Some 0 /\ errorCounts st' !! n = Some 0 /\
   backoffTimes st' !! n = Some 0) /\
  (resp <> AddedOk n -> st' = st).
Proof. exact (postAccounts_view body ok st). Qed.

Lemma postAccounts_effects_witness :
  b_name (bodyNew "k1") <> Some "__proto__" /\
  (postAccounts (bodyNew "k1") true stAB).2 = AddedOk "NEW" /\
  lastFetchTimes (postAccounts (bodyNew "k1") true stAB).1 !! "NEW" = Some 0.
Proof.
  assert (Hp : b_name (bodyNew "k1") <> Some "__proto__") by discriminate.
  pose proof (postAccounts_effects (bodyNew "k1") true stAB Hp) as H. cbv zeta in H.
  destruct (postAccounts (bodyNew "k1") true stAB) as [st' resp] eqn:E.
  destruct H as (_ & _ & _ & _ & _ & Hadd & Hnew & _).
  assert (Hr : resp = AddedOk "NEW").
  { apply Hadd. split; [reflexivity|]. split; [reflexivity|]. split; [reflexivity|].
    split; [reflexivity|]. split; [reflexivity|]. split; [vm_compute; reflexivity|].
    split; [|reflexivity]. apply list_elem_of_In. simpl. auto. }
  destruct (Hnew Hr) as (_ & L & _). simpl. split; [exact Hp|]. split; [exact Hr|exact L].
Defined.

(** X: an account added through [POST /accounts] is reported by
    [getHealthStatus()] as not healthy, never fetched, not in backoff,
    with error count 0 and with no configuration: [getAccountConfig] reads
    only the static configuration, which the route does not extend.  This
    is for a body whose fields are strings or absent, with a name other
    than "__proto__". *)
Theorem posted_account_health body ok st st' n now
  (Hproto : b_name body <> Some "__proto__")
  (Hp : postAccounts body ok st = (st', AddedOk n)) (Hnow : 0 <= now) :
  getHealthStatus now st' !! n = Some (mkHealth false None None false None 0 None).
Proof.
  pose proof (postAccounts_view body ok st) as V. cbv zeta in V. rewrite Hp in V.
  destruct V as (_ & Hcf & _ & _ & Hm & Hadd & Hnew & _).
  pose proof (Hm n eq_refl) as En. rewrite <- En in Hadd, Hnew.
  destruct (proj1 Hadd eq_refl) as (_ & _ & _ & _ & _ & Hg & _).
  destruct (Hnew eq_refl) as ((cl & Hcl & _) & L & E & B).
  unfold getHealthStatus. rewrite map_lookup_imap, Hcl. simpl. f_equal.
  unfold healthOf, getAccountConfig. rewrite L, E, B, Hcf. unfold getAccountConfig in Hg.
  rewrite Hg. simpl. rewrite (bool_decide_false (now < 0)) by lia. reflexivity.
Qed.

Lemma posted_account_health_witness :
  getHealthStatus 5 stNew1 !! "NEW" = Some (mkHealth false None None false None 0 None).
Proof.
  assert (Hp : postAccounts (bodyNew "k1") true stAB = (stNew1, AddedOk "NEW"))
    by (vm_compute; reflexivity).
  exact (posted_account_health (bodyNew "k1") true stAB stNew1 "NEW" 5
           ltac:(discriminate) Hp ltac:(lia)).
Defined.

(** X: [POST /set-current] with a missing or empty [accountName] answers
    400 "Account name is required"; with a name not listed in
    [cachedData.availableAccounts] it answers 400 "Invalid account: name";
    both leave the state unchanged.  With a listed name it answers that
    name and changes only the selected account. *)
Theorem setCurrentRoute_outcomes acc st :
  let '(st', rep) := setCurrentRoute acc st in
  (falsy acc = true -> st' = st /\ rep = Error 400 "Account name is required") /\
  (forall n, acc = Some n -> n <> "" -> n ∉ availableAccounts (cachedData st) ->
   st' = st /\ rep = Error 400 ("Invalid account: " ++ n)) /\
  (forall n, acc = Some n -> n <> "" -> n ∈ availableAccounts (cachedData st) ->
   rep = Json n /\
   st' = mkSt (config_accounts st) (exchangeClients st) (lastFetchTimes st)
           (errorCounts st) (backoffTimes st)
           (mkCombinedData (accounts (cachedData st)) n
              (availableAccounts (cachedData st)) (accountConfigs (cachedData st)))
           (connectorCalls st)).
Proof.
  unfold setCurrentRoute. destruct acc as [n|]; simpl.
  2:{ split; [auto|]. split; intros n [=]. }
  destruct (String.eqb_spec n "") as [->|Hne]; simpl.
  { split; [auto|]. split; intros m [= <-] Hn; by destruct Hn. }
  unfold setCurrentAccount. destruct (bool_decide (n ∈ _)) eqn:Hd; simpl;
    (split; [discriminate|]).
  - apply bool_decide_eq_true in Hd. split; [intros m [= <-] _ Hn; contradiction|].
    intros m [= <-] _ _. auto.
  - apply bool_decide_eq_false in Hd. split; [intros m [= <-] _ _; auto|].
    intros m [= <-] _ Hn. contradiction.
Qed.

Lemma objGet_some {A} (m : gmap string A) k x : m !! k = Some x -> objGet m k = Own x.
Proof. unfold objGet. by intros ->. Qed.

Lemma objGet_none {A} (m : gmap string A) k :
  m !! k = None ->
  objGet m k = if bool_decide (k ∈ objectProtoProps) then Inherited else Absent.
Proof. unfold objGet. by intros ->. Qed.

Lemma objectProtoProps_nonempty n : n ∈ objectProtoProps -> n <> "".
Proof.
  intros Hin ->. assert (H0 : bool_decide ("" ∈ objectProtoProps) = false) by reflexivity.
  apply bool_decide_eq_false in H0. contradiction.
Qed.

(** X: once a fetch of account [a] has succeeded with snapshot [d], and
    while every later fetch of [a] fails (other accounts doing anything),
    [GET /positions/a] answers [d]'s positions, [GET /account-summary/a]
    its summary, and [POST /account-metrics] with [a] as first target the
    metrics taken from that summary (later targets are ignored). *)
Theorem read_routes_serve_last_snapshot st a ob d steps rest
  (Hcl : is_Some (exchangeClients st !! a))
  (Hnb : forall b, backoffTimes st !! a = Some b -> b <= t_check ob)
  (Hok : outcome ob = Resolved d) (Ha : a <> "")
  (Hout : Forall (fun '(b, o) => b = a -> outcome o = Rejected) steps) :
  let st' := runMany steps (fetchAccountStep ob a st) in
  positionsRoute a st' = Json (positions d) /\
  accountSummaryRoute a st' = Json (accountSummary d) /\
  accountMetricsRoute (TArray (TObj (Some a) :: rest)) st' =
    Json (metricsOf (accountSummary d)).
Proof.
  destruct Hcl as [cl Hcl]. intros st'.
  assert (Hd : accounts (cachedData st') !! a = Some d).
  { subst st'. rewrite runMany_outage by exact Hout.
    rewrite (step_success st a ob cl d Hcl (gt_opt_false _ _ Hnb) Hok). simpl.
    apply lookup_insert_eq. }
  unfold positionsRoute, accountSummaryRoute, accountMetricsRoute.
  rewrite (objGet_some _ _ _ Hd). simpl.
  rewrite (proj2 (String.eqb_neq a "") Ha). simpl.
  rewrite (objGet_some _ _ _ Hd). auto.
Qed.

Lemma read_routes_serve_last_snapshot_witness :
  positionsRoute "A" (runMany [("A", failAt 20); ("B", okAt 21 snapB)]
                        (fetchAccountStep (okAt 10 snapA) "A" stAB)) = Json [] /\
  accountSummaryRoute "A" (runMany [("A", failAt 20); ("B", okAt 21 snapB)]
                        (fetchAccountStep (okAt 10 snapA) "A" stAB)) = Json sumA.
Proof.
  assert (Hcl : is_Some (exchangeClients stAB !! "A")) by (vm_compute; eexists; reflexivity).
  assert (Hnb : forall b, backoffTimes stAB !! "A" = Some b -> b <= t_check (okAt 10 snapA)).
  { apply gt_opt_false_le. vm_compute. reflexivity. }
  assert (Hout : Forall (fun '(b, o) => b = "A" -> outcome o = Rejected)
                   [("A", failAt 20); ("B", okAt 21 snapB)]).
  { repeat constructor. discriminate. }
  destruct (read_routes_serve_last_snapshot stAB "A" (okAt 10 snapA) snapA
              [("A", failAt 20); ("B", okAt 21 snapB)] [] Hcl Hnb eq_refl
              ltac:(discriminate) Hout) as (H1 & H2 & _).
  split; [exact H1|exact H2].
Defined.

(** X: from startup until a fetch of name [n] first succeeds (every fetch
    of [n] so far failed, other accounts doing anything), the read routes
    find no data for [n]: [GET /positions/n] and [GET /account-summary/n]
    answer 404 "Account not found", and so does [POST /account-metrics]
    with a non-empty [n] as first target.  When [n] names a property that
    every JavaScript object inherits (such as "constructor" or "toString"),
    the two GET routes instead answer 200 with an empty body and
    [POST /account-metrics] answers 500. *)
Theorem read_routes_before_first_fetch inits cfg steps n rest
  (Hout : Forall (fun '(b, o) => b = n -> outcome o = Rejected) steps) :
  let st := runMany steps (startDataFetcher_setup inits (initialState cfg)) in
  (n ∉ objectProtoProps ->
   positionsRoute n st = Error 404 "Account not found" /\
   accountSummaryRoute n st = Error 404 "Account not found" /\
   (n <> "" -> accountMetricsRoute (TArray (TObj (Some n) :: rest)) st
               = Error 404 "Account not found")) /\
  (n ∈ objectProtoProps ->
   positionsRoute n st = NoBody /\ accountSummaryRoute n st = NoBody /\
   accountMetricsRoute (TArray (TObj (Some n) :: rest)) st
   = Error 500 "Internal Server Error").
Proof.
  intros st.
  assert (Hn : accounts (cachedData st) !! n = None).
  { subst st. rewrite runMany_outage by exact Hout. rewrite setup_accounts.
    apply lookup_empty. }
  unfold positionsRoute, accountSummaryRoute, accountMetricsRoute.
  rewrite !(objGet_none _ _ Hn). simpl. split.
  - intros Hp. rewrite (bool_decide_false _ Hp). split; [reflexivity|].
    split; [reflexivity|]. intros Hne. rewrite (proj2 (String.eqb_neq n "") Hne).
    simpl. rewrite (objGet_none _ _ Hn), (bool_decide_false _ Hp). reflexivity.
  - intros Hp. rewrite (bool_decide_true _ Hp). split; [reflexivity|].
    split; [reflexivity|].
    rewrite (proj2 (String.eqb_neq n "") (objectProtoProps_nonempty n Hp)).
    simpl. rewrite (objGet_none _ _ Hn), (bool_decide_true _ Hp). reflexivity.
Qed.

Lemma read_routes_before_first_fetch_witness :
  positionsRoute "toString" (runMany [("toString", failAt 1); ("A", okAt 2 snapA)] stAB)
    = NoBody /\
  positionsRoute "B" (runMany [("B", failAt 1); ("A", okAt 2 snapA)] stAB)
    = Error 404 "Account not found".
Proof.
  assert (H1 : Forall (fun '(b, o) => b = "toString" -> outcome o = Rejected)
                 [("toString", failAt 1); ("A", okAt 2 snapA)]).
  { repeat constructor. discriminate. }
  assert (H2 : Forall (fun '(b, o) => b = "B" -> outcome o = Rejected)
                 [("B", failAt 1); ("A", okAt 2 snapA)]).
  { repeat constructor. discriminate. }
  assert (Hp : "toString" ∈ objectProtoProps) by (apply (proj1 (bool_decide_eq_true _)); reflexivity).
  assert (Hq : "B" ∉ objectProtoProps) by (apply (proj1 (bool_decide_eq_false _)); reflexivity).
  split.
  - exact (proj1 (proj2 (read_routes_before_first_fetch allInit [cfgA; cfgB]
                           [("toString", failAt 1); ("A", okAt 2 snapA)] "toString" [] H1) Hp)).
  - exact (proj1 (proj1 (read_routes_before_first_fetch allInit [cfgA; cfgB]
                           [("B", failAt 1); ("A", okAt 2 snapA)] "B" [] H2) Hq)).
Defined.

(** X: every [GET /accounts/x] request (x non-empty) reaches the
    [/accounts/:exchange] handler before the [/accounts/:accountName] one,
    which is never reached, since the first handler always answers.  With
    the shipped configuration it lists SF1, SF2, PM1, PM2 for "binance" and
    answers 404 "Exchange not found" for anything else, account names
    included. *)
Theorem accounts_param_route_shadowed x (Hx : x <> "") :
  map layerHandler (matchingLayers GET ["accounts"; x])
    = ["accountsByExchange"; "accountByName"] /\
  forall cred, accountsByExchangeRoute (shippedConfig cred) x =
    if String.eqb x "binance" then Json ["SF1"; "SF2"; "PM1"; "PM2"]
    else Error 404 "Exchange not found".
Proof.
  split.
  - assert (Hx' : String.eqb x "" = false) by (apply String.eqb_neq; exact Hx).
    unfold matchingLayers, exchangeRoutes. rewrite !filter_cons, filter_nil.
    cbn [layerMatches methodEqb segsMatch prefixMatch andb negb].
    rewrite Hx'. cbn [negb andb].
    repeat match goal with
    | |- context [decide (?b = true)] =>
        let v := eval vm_compute in b in
        change b with v
    end.
    reflexivity.
  - intros cred. unfold accountsByExchangeRoute, getAccountsByExchange, shippedConfig.
    cbn [map]. rewrite !filter_cons, filter_nil. cbn [exchange].
    destruct (String.eqb_spec x "binance") as [->|Hne].
    + rewrite !decide_True by reflexivity. reflexivity.
    + rewrite !decide_False by congruence. reflexivity.
Qed.

Lemma accounts_param_route_shadowed_witness :
  map layerHandler (matchingLayers GET ["accounts"; "SF1"])
    = ["accountsByExchange"; "accountByName"] /\
  accountsByExchangeRoute (shippedConfig (fun _ => ("k", "s", "u"))) "SF1"
    = Error 404 "Exchange not found".
Proof.
  destruct (accounts_param_route_shadowed "SF1" ltac:(discriminate)) as [H1 H2].
  split; [exact H1|]. rewrite H2. reflexivity.
Defined.

(* ------------------------------------------------------------------ *)
(** ** [GET /available] *)

Lemma elem_of_map_iff {A B} (f : A -> B) (l : list A) y :
  y ∈ map f l <-> exists x, x ∈ l /\ f x = y.
Proof.
  rewrite list_elem_of_In, in_map_iff. split.
  - intros (x & <- & Hx). exists x. split; [apply list_elem_of_In|]; auto.
  - intros (x & Hx & <-). exists x. split; [|apply list_elem_of_In]; auto.
Qed.

Lemma uniqueFirst_spec xs : forall seen,
  (forall y, y ∈ uniqueFirst seen xs <-> y ∈ xs /\ y ∉ seen) /\
  NoDup (uniqueFirst seen xs).
Proof.
  induction xs as [|x r IH]; intros seen; simpl.
  - split; [|constructor]. intros y. rewrite elem_of_nil. split; [done|]. intros [Hy _].
    done.
  - destruct (bool_decide (x ∈ seen)) eqn:Hx.
    + apply bool_decide_eq_true in Hx. destruct (IH seen) as [Hm Hn]. split; [|exact Hn].
      intros y. rewrite Hm, elem_of_cons. split; [tauto|].
      intros [[->|Hy] Hs]; [contradiction|auto].
    + apply bool_decide_eq_false in Hx. destruct (IH (x :: seen)) as [Hm Hn].
      split.
      * intros y. rewrite elem_of_cons, Hm, !elem_of_cons. split.
        -- intros [->|[Hy Hs]]; [auto|tauto].
        -- intros [[->|Hy] Hs]; [auto|]. destruct (decide (y = x)); [auto|right; tauto].
      * constructor; [|exact Hn]. rewrite Hm, elem_of_cons. tauto.
Qed.

Lemma insertByIndex_elem {A} (p q : N * A) l :
  q ∈ insertByIndex p l <-> q = p \/ q ∈ l.
Proof.
  induction l as [|r l IH]; simpl.
  - rewrite elem_of_cons, elem_of_nil. tauto.
  - destruct (_ <=? _)%N; rewrite !elem_of_cons; [tauto|]. rewrite IH. tauto.
Qed.

Lemma objectValues_elem {A} (o : list (string * A)) x :
  x ∈ objectValues o <-> exists k, (k, x) ∈ o.
Proof.
  assert (Hi : forall q, q ∈ fold_right (fun p acc =>
             match arrayIndex p.1 with
             | Some i => insertByIndex (i, p.2) acc
             | None => acc
             end) [] o <-> exists k, (k, q.2) ∈ o /\ arrayIndex k = Some q.1).
  { intros [qi qv]. simpl. induction o as [|[k v] o IH]; simpl.
    - rewrite elem_of_nil. split; [done|]. intros (k & Hk & _). by apply elem_of_nil in Hk.
    - destruct (arrayIndex k) as [i|] eqn:Hk.
      + rewrite insertByIndex_elem, IH. split.
        * intros [[= -> ->]|(k' & H1 & H2)].
          -- exists k. rewrite elem_of_cons. auto.
          -- exists k'. rewrite elem_of_cons. auto.
        * intros (k' & H1 & H2). apply elem_of_cons in H1 as [[= -> ->]|H1].
          -- left. congruence.
          -- right. eauto.
      + rewrite IH. split; intros (k' & H1 & H2).
        * exists k'. rewrite elem_of_cons. auto.
        * apply elem_of_cons in H1 as [[= -> _]|H1]; [congruence|eauto]. }
  unfold objectValues. rewrite elem_of_app, !elem_of_map_iff. split.
  - intros [([qi qv] & Hq & <-)|([k v] & Hq & <-)].
    + apply Hi in Hq as (k & Hk & _). eauto.
    + apply list_elem_of_filter in Hq as [_ Hq]. eauto.
  - intros (k & Hk). destruct (arrayIndex k) as [i|] eqn:Ha.
    + left. exists (i, x). split; [apply Hi; eauto|reflexivity].
    + right. exists (k, x). split; [apply list_elem_of_filter; auto|reflexivity].
Qed.

Lemma jsAssign_inv (o : list (string * AccountConfig)) (m : gmap string AccountConfig) k v :
  NoDup (map fst o) ->
  (forall k' v', (k', v') ∈ o <-> k' <> "__proto__" /\ m !! k' = Some v') ->
  NoDup (map fst (jsAssign k v o)) /\
  (forall k' v', (k', v') ∈ jsAssign k v o <->
                 k' <> "__proto__" /\ <[k := v]> m !! k' = Some v').
Proof.
  intros Hnd Ho. unfold jsAssign.
  destruct (String.eqb_spec k "__proto__") as [->|Hp].
  { split; [exact Hnd|]. intros k' v'. rewrite Ho.
    destruct (decide (k' = "__proto__")) as [->|Hne]; [tauto|].
    rewrite lookup_insert_ne by congruence. tauto. }
  destruct (existsb (fun p => String.eqb p.1 k) o) eqn:He.
  - apply existsb_exists in He as ([k0 v0] & Hin0 & Hk0). simpl in Hk0.
    apply String.eqb_eq in Hk0. subst k0.
    split.
    + rewrite map_map.
      replace (map (fun x => (if String.eqb x.1 k then (k, v) else x).1) o) with (map fst o);
        [exact Hnd|].
      apply map_ext. intros [a b]. simpl. by destruct (String.eqb_spec a k) as [->|].
    + intros k' v'. rewrite elem_of_map_iff.
      destruct (decide (k' = k)) as [->|Hne].
      * rewrite lookup_insert_eq. split.
        -- intros ([a b] & _ & Hf). simpl in Hf.
           destruct (String.eqb_spec a k) as [->|Hak]; [|injection Hf as -> ->; done].
           injection Hf as ->. auto.
        -- intros [_ [= ->]]. exists (k, v0). simpl. rewrite String.eqb_refl.
           split; [apply list_elem_of_In|]; auto.
      * rewrite lookup_insert_ne by congruence. rewrite <- Ho. split.
        -- intros ([a b] & Hab & Hf). simpl in Hf.
           destruct (String.eqb_spec a k) as [->|Hak]; [injection Hf as -> _; done|].
           rewrite Hf in Hab. exact Hab.
        -- intros Hkv. exists (k', v'). simpl.
           rewrite (proj2 (String.eqb_neq k' k) Hne). auto.
  - assert (Hnot : forall v0, (k, v0) ∉ o).
    { intros v0 Hin. assert (Ht : existsb (fun p => String.eqb p.1 k) o = true).
      { apply existsb_exists. exists (k, v0). split; [apply list_elem_of_In; exact Hin|].
        apply String.eqb_refl. }
      congruence. }
    split.
    + rewrite map_app. apply list.NoDup_app. split; [exact Hnd|]. split; [|apply list.NoDup_singleton].
      intros x Hx. cbn [map fst]. rewrite list_elem_of_singleton. intros ->.
      apply elem_of_map_iff in Hx as ([a b] & Hab & Ha). simpl in Ha. subst a.
      exact (Hnot b Hab).
    + intros k' v'. rewrite elem_of_app, list_elem_of_singleton.
      destruct (decide (k' = k)) as [->|Hne].
      * rewrite lookup_insert_eq. split.
        -- intros [H|[= ->]]; [by apply Hnot in H|auto].
        -- intros [_ [= ->]]. auto.
      * rewrite lookup_insert_ne by congruence. rewrite <- Ho. split.
        -- intros [H|[= -> _]]; [exact H|done].
        -- auto.
Qed.

Lemma allAccountConfigsObj_inv cfg :
  NoDup (map fst (allAccountConfigsObj cfg)) /\
  forall k v, (k, v) ∈ allAccountConfigsObj cfg <->
    k <> "__proto__" /\ fold_left (fun (m : gmap string AccountConfig) c => <[name c := c]> m) cfg ∅ !! k = Some v.
Proof.
  unfold allAccountConfigsObj.
  assert (G : forall l o (m : gmap string AccountConfig), NoDup (map fst o) ->
    (forall k v, (k, v) ∈ o <-> k <> "__proto__" /\ m !! k = Some v) ->
    NoDup (map fst (fold_left (fun o c => jsAssign (name c) c o) l o)) /\
    forall k v, (k, v) ∈ fold_left (fun o c => jsAssign (name c) c o) l o <->
      k <> "__proto__" /\ fold_left (fun m c => <[name c := c]> m) l m !! k = Some v).
  { induction l as [|c l IH]; intros o m H1 H2; simpl; [auto|].
    destruct (jsAssign_inv o m (name c) c H1 H2) as [J1 J2]. apply IH; auto. }
  apply G; [constructor|]. intros k v. rewrite elem_of_nil, lookup_empty.
  split; [done|]. intros [_ [=]].
Qed.

Lemma availableRoute_elem cfg e :
  e ∈ availableRoute cfg <->
  exists n c, n <> "__proto__" /\
    fold_left (fun (m : gmap string AccountConfig) c => <[name c := c]> m) cfg ∅ !! n = Some c /\ exchange c = e.
Proof.
  unfold availableRoute. rewrite (proj1 (uniqueFirst_spec _ [])), elem_of_map_iff.
  destruct (allAccountConfigsObj_inv cfg) as [_ Hm]. split.
  - intros [(c & Hc & He) _]. apply objectValues_elem in Hc as (k & Hk).
    apply Hm in Hk as [Hk Hl]. eauto.
  - intros (n & c & Hn & Hl & He). split; [|intros Hx; by apply elem_of_nil in Hx].
    exists c. split; [|exact He]. apply objectValues_elem. exists n. by apply Hm.
Qed.

(** X: [GET /available] lists each exchange once, and exactly the
    exchanges of the entries kept by [getAllAccountConfigs()] (the last
    configuration entry of each name), except an entry named "__proto__",
    which sets the object's prototype instead of adding a property.  When
    the configured names are distinct, these are the exchanges of all
    configured accounts not named "__proto__".  With the shipped
    configuration the list is ["binance"]. *)
Theorem available_exchanges st :
  NoDup (availableRoute (config_accounts st)) /\
  (forall e, e ∈ availableRoute (config_accounts st) <->
   exists n c, n <> "__proto__" /\ getAllAccountConfigs st !! n = Some c /\ exchange c = e) /\
  (NoDup (map name (config_accounts st)) ->
   forall e, e ∈ availableRoute (config_accounts st) <->
   exists c, c ∈ config_accounts st /\ name c <> "__proto__" /\ exchange c = e) /\
  (forall cred, availableRoute (shippedConfig cred) = ["binance"]).
Proof.
  split; [apply uniqueFirst_spec|]. split; [apply availableRoute_elem|].
  split; [|intros cred; reflexivity].
  intros Hnd e. rewrite availableRoute_elem. split.
  - intros (n & c & Hn & Hl & He). rewrite fold_configs_lookup, lookup_empty in Hl.
    destruct (list.last _) as [c'|] eqn:El; [|discriminate]. injection Hl as <-.
    apply last_Some_elem_of, list_elem_of_filter in El as [Hcn Hc]. subst n. eauto.
  - intros (c & Hc & Hn & He). exists (name c), c. split; [exact Hn|]. split; [|exact He].
    rewrite fold_configs_lookup.
    pose proof (filter_name_nodup (config_accounts st) (name c) Hnd) as Hlen.
    assert (Hin : c ∈ filter (fun c' => name c' = name c) (config_accounts st))
      by (apply list_elem_of_filter; auto).
    destruct (filter _ _) as [|x [|y l]]; simpl in *.
    + by apply elem_of_nil in Hin.
    + apply list_elem_of_singleton in Hin. by subst.
    + lia.
Qed.

(* ------------------------------------------------------------------ *)
(** ** [POST /variable] *)

Lemma substring_all x : String.substring 0 (String.length x) x = x.
Proof. induction x as [|c x IH]; simpl; [reflexivity|]. by rewrite IH. Qed.

Lemma prefix_app p x : String.prefix p (p ++ x) = true.
Proof.
  induction p as [|c p IH]; simpl; [by destruct x|].
  destruct (Ascii.ascii_dec c c); [exact IH|contradiction].
Qed.

Lemma length_app p x : String.length (p ++ x) = (String.length p + String.length x)%nat.
Proof. induction p as [|c p IH]; simpl; auto. Qed.

Lemma substring_app p x :
  String.substring (String.length p) (String.length x) (p ++ x) = x.
Proof. induction p as [|c p IH]; simpl; [apply substring_all|exact IH]. Qed.

Lemma accountsTarget_app x :
  x <> "" -> noSlash x = true -> accountsTarget ("/api/accounts/" ++ x)%string = Some x.
Proof.
  intros Hx Hs. unfold accountsTarget. cbv zeta.
  rewrite prefix_app, length_app.
  replace (String.length "/api/accounts/" + String.length x - String.length "/api/accounts/")%nat
    with (String.length x) by lia.
  rewrite substring_app, (proj2 (String.eqb_neq x "") Hx), Hs. reflexivity.
Qed.

(** X: [POST /variable] answers [] for the target "/api/available" in
    every state: the cache has no [availableExchanges].  For a target
    "/api/accounts/x" (x non-empty, without "/") it reads [x] on the array
    [availableAccounts]: when [x] is not an array index, not "length" and
    not an inherited array property (an exchange name such as "binance",
    for instance), it answers 404 "Exchange not found"; when [x] is an
    index [i], it answers the [i]-th configured name, or 404 when there is
    none or it is empty.  A missing target gets 400 "Unknown variable
    target". *)
Theorem variable_route st x :
  variableRoute (Some "/api/available") st = Json (VList []) /\
  variableRoute None st = Error 400 "Unknown variable target" /\
  (x <> "" -> noSlash x = true ->
   (arrayIndex x = None -> x <> "length" -> x ∉ arrayProtoProps ->
    variableRoute (Some ("/api/accounts/" ++ x)%string) st = Error 404 "Exchange not found") /\
   (forall i, arrayIndex x = Some i ->
    variableRoute (Some ("/api/accounts/" ++ x)%string) st =
    match nth_error (availableAccounts (cachedData st)) (N.to_nat i) with
    | Some s => if String.eqb s "" then Error 404 "Exchange not found" else Json (VStr s)
    | None => Error 404 "Exchange not found"
    end)).
Proof.
  split; [reflexivity|]. split; [reflexivity|].
  intros Hx Hs.
  assert (Hne : String.eqb ("/api/accounts/" ++ x)%string "/api/available" = false) by reflexivity.
  unfold variableRoute. rewrite Hne, (accountsTarget_app x Hx Hs). unfold arrGet. split.
  - intros Ha Hl Hp. rewrite Ha, (proj2 (String.eqb_neq x "length") Hl).
    assert (Hq : x <> "__proto__").
    { intros ->. apply Hp. apply (proj1 (bool_decide_eq_true _)). reflexivity. }
    rewrite (proj2 (String.eqb_neq x "__proto__") Hq), (bool_decide_false _ Hp).
    reflexivity.
  - intros i Ha. rewrite Ha. destruct (nth_error _ _); reflexivity.
Qed.

(* ------------------------------------------------------------------ *)
(** ** Extra properties: the pass loop *)

Lemma step_calls ob b st :
  connectorCalls (fetchAccountStep ob b st) = connectorCalls st \/
  connectorCalls (fetchAccountStep ob b st) = b :: connectorCalls st.
Proof. step_cases; auto. Qed.

Lemma runMany_other steps st n :
  Forall (fun '(b, _) => b <> n) steps ->
  acct_view (runMany steps st) n = acct_view st n /\
  filter (fun b => b = n) (connectorCalls (runMany steps st))
  = filter (fun b => b = n) (connectorCalls st).
Proof.
  revert st. induction steps as [|[b ob] l IH]; intros st Hf; simpl; [auto|].
  inversion Hf as [|x y Hb Hl]; subst.
  destruct (IH (fetchAccountStep ob b st) Hl) as [H1 H2].
  rewrite H1, H2. split; [by apply step_frame|].
  destruct (step_calls ob b st) as [->| ->]; [reflexivity|].
  rewrite filter_cons, decide_False by exact Hb. reflexivity.
Qed.

Lemma runPasses_other passes st n :
  n ∉ map name (config_accounts st) ->
  acct_view (runPasses passes st) n = acct_view st n /\
  filter (fun b => b = n) (connectorCalls (runPasses passes st))
  = filter (fun b => b = n) (connectorCalls st).
Proof.
  revert st. induction passes as [|obs l IH]; intros st Hn; simpl; [auto|].
  assert (Hf : Forall (fun '(b, _) => b <> n)
                 (map (fun a => (a, obs a)) (getAvailableAccounts st))).
  { apply Forall_forall. intros [b ob] Hin. apply in_map_iff in Hin as (a & [= -> _] & Ha).
    intros ->. apply Hn. apply list_elem_of_In. exact Ha. }
  rewrite pass_runMany. destruct (runMany_other _ st n Hf) as [H1 H2].
  assert (Hc : config_accounts (runMany (map (fun a => (a, obs a)) (getAvailableAccounts st)) st)
               = config_accounts st) by apply runMany_config.
  destruct (IH (runMany (map (fun a => (a, obs a)) (getAvailableAccounts st)) st))
    as [H3 H4]; [by rewrite Hc|].
  rewrite H3, H4, H1, H2. auto.
Qed.

(** X: a fetch pass visits only the names of the static configuration:
    for any other name (one added through [POST /accounts], for instance)
    any number of passes never calls its connector and leaves its client,
    tracking entries and cache entries as they were. *)
Theorem passes_skip_unconfigured st n passes
  (Hn : n ∉ map name (config_accounts st)) :
  acct_view (runPasses passes st) n = acct_view st n /\
  filter (fun b => b = n) (connectorCalls (runPasses passes st))
  = filter (fun b => b = n) (connectorCalls st).
Proof. exact (runPasses_other passes st n Hn). Qed.

Lemma passes_skip_unconfigured_witness :
  acct_view (runPasses [obsAB; fun _ => okAt 50 snapB] stNew1) "NEW"
  = acct_view stNew1 "NEW".
Proof.
  assert (Hn : "NEW" ∉ map name (config_accounts stNew1)).
  { apply (proj1 (bool_decide_eq_false _)). vm_compute. reflexivity. }
  exact (proj1 (passes_skip_unconfigured stNew1 "NEW" [obsAB; fun _ => okAt 50 snapB] Hn)).
Defined.
